(** * UserSphere: user accounts, credentials and validation

    A shallow embedding of the service layer ([user_service.py]), the row
    model ([user.py]), the validation schemas ([user_schema.py]), the
    credential and token helpers ([auth_utils.py]) and the route handlers
    ([user_routes.py], [auth_routes.py]), with the statements of the
    specification settled against it. *)

From Stdlib Require Import ZArith NArith Ascii String SpecFloat.
From stdpp Require Import base option list strings pretty gmap fin_maps.

Set Warnings "-register-all".
Open Scope Z_scope.

(** ** Python values *)

(** A Python [str] is a sequence of Unicode code points; [len] counts them. *)
Abbreviation str := (list N).

(** The literal of an ASCII-only text. *)
Definition lit (x : string) : str := N_of_ascii <$> list_ascii_of_string x.

(** [bytes]: every element is below 256. *)
Abbreviation bytes := (list N).

(** The JSON values [request.get_json()] hands to a handler.  A number
    written without fraction and exponent is an [int]; any other number is
    a [float], a binary floating-point number [(-1)^s * m * 2^e], a signed
    zero, an infinity ([1e400], [Infinity]) or [NaN]. *)
Inductive json :=
| JNull
| JBool (b : bool)
| JInt (z : Z)
| JFloat (f : spec_float)
| JStr (s : str)
| JList (l : list json)
| JDict (m : gmap string json).

(** [int(f)] of a [float]: the fraction is cut off; it raises
    [ValueError] for [NaN] and [OverflowError] for an infinity. *)
Definition float_trunc (f : spec_float) : option Z :=
  match f with
  | S754_zero _ => Some 0
  | S754_finite s m e =>
      let a := if 0 <=? e then Z.pos m * 2 ^ e else Z.pos m / 2 ^ (- e) in
      Some (if s then - a else a)
  | S754_infinity _ | S754_nan => None
  end.

(** [f == z] for a [float] and an [int]. *)
Definition float_is (z : Z) (f : spec_float) : bool :=
  match f with
  | S754_zero _ => z =? 0
  | S754_finite s m e =>
      (if 0 <=? e then true else Z.pos m mod 2 ^ (- e) =? 0)
      && bool_decide (float_trunc f = Some z)
  | S754_infinity _ | S754_nan => false
  end.

(** Python truthiness, as used by [if not json_data]. *)
Definition truthy (v : json) : bool :=
  match v with
  | JNull => false
  | JBool b => b
  | JInt z => negb (z =? 0)
  | JFloat f => match f with S754_zero _ => false | _ => true end
  | JStr s => negb (bool_decide (s = []))
  | JList l => negb (bool_decide (length l = 0%nat))
  | JDict m => negb (bool_decide (size m = 0%nat))
  end.

(** ** Text *)

Section Text.
Local Open Scope N_scope.

Definition in_range (lo hi c : N) : bool := (lo <=? c) && (c <=? hi).

Definition is_upper (c : N) : bool := in_range 65 90 c.
Definition is_lower (c : N) : bool := in_range 97 122 c.
Definition is_alpha (c : N) : bool := is_lower c || is_upper c.
Definition is_digit (c : N) : bool := in_range 48 57 c.

(** The class [\s] of a [str] pattern: the code points for which
    [str.isspace] holds. *)
Definition is_space (c : N) : bool :=
  in_range 9 13 c || in_range 28 32 c || (c =? 133) || (c =? 160)
  || (c =? 5760) || in_range 8192 8202 c || (c =? 8232) || (c =? 8233)
  || (c =? 8239) || (c =? 8287) || (c =? 12288).

(** Membership in a bracket expression listing single characters. *)
Definition one_of (cs : string) (c : N) : bool :=
  bool_decide (c ∈ lit cs).

(** Case folding of the ASCII letters, as SQL [lower] does it. *)
Definition lower_char (c : N) : N := if is_upper c then c + 32 else c.
Definition lower (s : str) : str := lower_char <$> s.

(** [s.split(sep)] for a one-character separator. *)
Fixpoint split (sep : N) (s : str) : list str :=
  match s with
  | [] => [[]]
  | c :: s' =>
      if c =? sep then [] :: split sep s'
      else match split sep s' with
           | w :: ws => (c :: w) :: ws
           | [] => [[c]]
           end
  end.

(** [s.encode('utf-8')]; a lone surrogate raises. *)
Definition utf8_char (c : N) : option bytes :=
  if c <? 128 then Some [c]
  else if c <? 2048 then Some [192 + c / 64; 128 + c mod 64]
  else if in_range 55296 57343 c then None
  else if c <? 65536 then
    Some [224 + c / 4096; 128 + (c / 64) mod 64; 128 + c mod 64]
  else if c <? 1114112 then
    Some [240 + c / 262144; 128 + (c / 4096) mod 64;
          128 + (c / 64) mod 64; 128 + c mod 64]
  else None.

Definition utf8_encode (s : str) : option bytes :=
  mjoin <$> mapM utf8_char s.

Definition is_cont (b : N) : bool := in_range 128 191 b.

(** [b.decode('utf-8')], strict. *)
Fixpoint utf8_decode (b : bytes) : option str :=
  match b with
  | [] => Some []
  | b0 :: r0 =>
      if b0 <? 128 then cons b0 <$> utf8_decode r0
      else match r0 with
      | b1 :: r1 =>
          if in_range 194 223 b0 then
            if is_cont b1
            then cons ((b0 - 192) * 64 + (b1 - 128)) <$> utf8_decode r1
            else None
          else match r1 with
          | b2 :: r2 =>
              if in_range 224 239 b0 then
                let c := (b0 - 224) * 4096 + (b1 - 128) * 64 + (b2 - 128) in
                if is_cont b1 && is_cont b2 && (2048 <=? c)
                   && negb (in_range 55296 57343 c)
                then cons c <$> utf8_decode r2
                else None
              else match r2 with
              | b3 :: r3 =>
                  let c := (b0 - 240) * 262144 + (b1 - 128) * 4096
                           + (b2 - 128) * 64 + (b3 - 128) in
                  if in_range 240 244 b0 && is_cont b1 && is_cont b2
                     && is_cont b3 && in_range 65536 1114111 c
                  then cons c <$> utf8_decode r3
                  else None
              | [] => None
              end
          | [] => None
          end
      | [] => None
      end
  end.
End Text.

(** ** Regular expressions

    The patterns of the source are written as terms of [regex] and matched
    by derivatives. *)

Inductive regex :=
| Void
| Eps
| Cls (p : N → bool)
| Cat (r1 r2 : regex)
| Alt (r1 r2 : regex)
| Star (r : regex).

(** [r+] and [r{2,}]. *)
Definition Plus (r : regex) : regex := Cat r (Star r).
Definition AtLeast2 (r : regex) : regex := Cat r (Cat r (Star r)).
Definition Chr (a : ascii) : regex := Cls (λ c, (c =? N_of_ascii a)%N).

Fixpoint nullable (r : regex) : bool :=
  match r with
  | Void => false
  | Eps => true
  | Cls _ => false
  | Cat r1 r2 => nullable r1 && nullable r2
  | Alt r1 r2 => nullable r1 || nullable r2
  | Star _ => true
  end.

Fixpoint deriv (c : N) (r : regex) : regex :=
  match r with
  | Void => Void
  | Eps => Void
  | Cls p => if p c then Eps else Void
  | Cat r1 r2 =>
      if nullable r1 then Alt (Cat (deriv c r1) r2) (deriv c r2)
      else Cat (deriv c r1) r2
  | Alt r1 r2 => Alt (deriv c r1) (deriv c r2)
  | Star r1 => Cat (deriv c r1) (Star r1)
  end.

(** [re.match('^' r '$', s) is not None]: the match starts at the first
    character, and [$] holds at the end of the text or just before a
    newline that ends it. *)
Fixpoint re_match (r : regex) (s : str) : bool :=
  match s with
  | [] => nullable r
  | c :: s' =>
      (nullable r && bool_decide (s = [10%N])) || re_match (deriv c r) s'
  end.

(** The words of a pattern. *)
Inductive lang : regex → str → Prop :=
| lang_eps : lang Eps []
| lang_cls p c : p c = true → lang (Cls p) [c]
| lang_cat r1 r2 s1 s2 : lang r1 s1 → lang r2 s2 → lang (Cat r1 r2) (s1 ++ s2)
| lang_alt_l r1 r2 s : lang r1 s → lang (Alt r1 r2) s
| lang_alt_r r1 r2 s : lang r2 s → lang (Alt r1 r2) s
| lang_star_nil r : lang (Star r) []
| lang_star_cons r s1 s2 :
    lang r s1 → lang (Star r) s2 → lang (Star r) (s1 ++ s2).

(** ** SQL [LIKE]

    [%] stands for any run of characters and [_] for any one character;
    no escape character is in force. *)
Fixpoint like (p t : str) : bool :=
  match p with
  | [] => bool_decide (t = [])
  | c :: p' =>
      if (c =? 37)%N then
        (fix any (t : str) : bool :=
           like p' t || match t with [] => false | _ :: t' => any t' end) t
      else
        match t with
        | [] => false
        | x :: t' => ((c =? 95)%N || (c =? x)%N) && like p' t'
        end
  end.

(** [column.ilike(pattern)]: [lower(column) LIKE lower(pattern)]. *)
Definition ilike (pattern text : str) : bool := like (lower pattern) (lower text).

(** ** Exceptions and results *)

Inductive exn :=
| ValueError (msg : string)
| KeyError (key : string)
| TypeError (msg : string)
| AttributeError (msg : string)
| IndexError (msg : string)
| UnicodeError (msg : string)
| ExpiredSignatureError
| InvalidSignatureError
| DecodeError
| ValidationError (messages : gmap string (list string))
| Exception (msg : string).

(** [jwt.ExpiredSignatureError], [jwt.InvalidSignatureError] and
    [jwt.DecodeError] all derive from [jwt.InvalidTokenError]. *)
Definition is_InvalidTokenError (e : exn) : bool :=
  match e with
  | ExpiredSignatureError | InvalidSignatureError | DecodeError => true
  | _ => false
  end.

Definition is_ValueError (e : exn) : bool :=
  match e with
  | ValueError _ | UnicodeError _ => true
  | _ => false
  end.

(** [str(e)]. *)
Definition str_exn (e : exn) : string :=
  match e with
  | ValueError m | TypeError m | AttributeError m | IndexError m
  | UnicodeError m | Exception m => m
  | KeyError k => "'" +:+ k +:+ "'"
  | ExpiredSignatureError => "Signature has expired"
  | InvalidSignatureError => "Signature verification failed"
  | DecodeError => "Not enough segments"
  | ValidationError _ => "ValidationError"
  end.

Inductive result (A : Type) :=
| Ok (x : A)
| Raise (e : exn).
Arguments Ok {A} x.
Arguments Raise {A} e.

#[global] Instance result_ret : MRet result := λ A x, Ok x.
#[global] Instance result_bind : MBind result :=
  λ A B f m, match m with Ok x => f x | Raise e => Raise e end.

Definition returns {A} (m : result A) : Prop := ∃ x, m = Ok x.

(** ** The platform

    The packages the program calls and the configuration it reads: bcrypt,
    PyJWT, flask_jwt_extended, marshmallow's e-mail validator, the built-in
    [int], the application's secret key, and what the store behind
    SQLAlchemy makes of a value whose type is not the type of its column.
    The program is embedded over any behaviour of these. *)
Class Platform := {
  (** [bcrypt.hashpw(password, salt)] *)
  bcrypt_hashpw : bytes → bytes → result bytes;
  (** [bcrypt.checkpw(password, hashed_password)] *)
  bcrypt_checkpw : bytes → bytes → result bool;
  (** [jwt.decode(token, key, algorithms=['HS256'])] at a clock reading *)
  jwt_decode : str → str → Z → result (gmap string json);
  (** [flask_jwt_extended.create_access_token(identity=...)] *)
  create_access_token : Z → str;
  (** [marshmallow.validate.Email()(value)] accepts [value] *)
  email_validator : str → bool;
  (** [int(s)] of a text; [None] where it raises [ValueError] *)
  int_of_str : str → option Z;
  (** [current_app.config['SECRET_KEY']] *)
  SECRET_KEY : str;
  (** A value that is no text, bound to a [String] column or compared with
      one: the text the store takes it for, or the error it raises *)
  store_text : json → result str;
  (** A value that is neither an integer nor null, bound to the [Integer]
      column [age] *)
  store_integer : json → result (option Z);
}.

(** What a call reads from its surroundings: the clock and the salt
    generator.  The clock is read by the code itself ([utcnow]) and, at an
    [INSERT], once by each of the column defaults of [created_at] and
    [updated_at], which are two calls of [datetime.utcnow]. *)
Record ambient := {
  utcnow : Z;              (* [datetime.utcnow()], in microseconds *)
  gensalt : bytes;         (* [bcrypt.gensalt()] *)
  default_created_at : Z;  (* the call made for [created_at] at an insert *)
  default_updated_at : Z;  (* the call made for [updated_at] at an insert *)
}.

(** ** The user table ([user.py]) *)

(** A dictionary of column values, as [User.update] takes it in its keyword
    arguments and as the schemas produce it: one entry per key, in
    insertion order.  [kw_other] stands for a key that names no attribute
    of a row. *)
Inductive kwarg :=
| kw_id (v : Z)
| kw_name (v : str)
| kw_email (v : str)
| kw_age (v : option Z)
| kw_password (v : str)
| kw_created_at (v : Z)
| kw_updated_at (v : Z)
| kw_is_active (v : bool)
| kw_other (k : string).

Definition key (kw : kwarg) : string :=
  match kw with
  | kw_id _ => "id"
  | kw_name _ => "name"
  | kw_email _ => "email"
  | kw_age _ => "age"
  | kw_password _ => "password"
  | kw_created_at _ => "created_at"
  | kw_updated_at _ => "updated_at"
  | kw_is_active _ => "is_active"
  | kw_other k => k
  end.

Abbreviation dict := (list kwarg).

(** [k in d] *)
Definition contains (k : string) (d : dict) : bool :=
  bool_decide (k ∈ key <$> d).

Module User.

Record t := mk {
  id : Z;
  name : str;
  email : str;
  age : option Z;
  password : str;
  created_at : Z;
  updated_at : Z;
  is_active : bool;
}.

#[global] Instance t_eq_dec : EqDecision t.
Proof. solve_decision. Defined.

(** The object [User(name, email, password, age)] before it is saved. *)
Record fresh := init {
  f_name : str;
  f_email : str;
  f_password : str;
  f_age : option Z;
}.

(** [to_dict]; the password is not part of it. *)
Record view := {
  v_id : Z;
  v_name : str;
  v_email : str;
  v_age : option Z;
  v_is_active : bool;
  v_created_at : Z;
  v_updated_at : Z;
}.

Definition to_dict (self : t) : view :=
  {| v_id := id self; v_name := name self; v_email := email self;
     v_age := age self; v_is_active := is_active self;
     v_created_at := created_at self; v_updated_at := updated_at self |}.

(** [hasattr(self, key)] *)
Definition hasattr (kw : kwarg) : bool :=
  match kw with
  | kw_other _ => false
  | _ => true
  end.

(** [setattr(self, key, value)] *)
Definition setattr (self : t) (kw : kwarg) : t :=
  match kw with
  | kw_id v => mk v (name self) (email self) (age self) (password self)
                 (created_at self) (updated_at self) (is_active self)
  | kw_name v => mk (id self) v (email self) (age self) (password self)
                   (created_at self) (updated_at self) (is_active self)
  | kw_email v => mk (id self) (name self) v (age self) (password self)
                    (created_at self) (updated_at self) (is_active self)
  | kw_age v => mk (id self) (name self) (email self) v (password self)
                  (created_at self) (updated_at self) (is_active self)
  | kw_password v => mk (id self) (name self) (email self) (age self) v
                       (created_at self) (updated_at self) (is_active self)
  | kw_created_at v => mk (id self) (name self) (email self) (age self)
                         (password self) v (updated_at self) (is_active self)
  | kw_updated_at v => mk (id self) (name self) (email self) (age self)
                         (password self) (created_at self) v (is_active self)
  | kw_is_active v => mk (id self) (name self) (email self) (age self)
                        (password self) (created_at self) (updated_at self) v
  | kw_other _ => self
  end.

End User.

(** The rows of [users], in insertion order.  A commit is taken to
    succeed: the [except] arms of the service, which roll back a failed
    commit and raise a general exception, have no counterpart below. *)
Abbreviation table := (list User.t).

(** [User.query.filter_by(email=email).first()] *)
Definition first_by_email (e : str) (db : table) : option User.t :=
  head (filter (λ u, User.email u = e) db).

(** [User.query.get(user_id)] *)
Definition query_get (i : Z) (db : table) : option User.t :=
  head (filter (λ u, User.id u = i) db).

(** The key the store gives to an inserted row. *)
Definition next_id (db : table) : Z := 1 + foldr Z.max 0 (User.id <$> db).

(** [UPDATE users SET ... WHERE id = :id], as [db.session.commit()] issues
    it for a row that was changed in the session. *)
Definition commit_row (u : User.t) (db : table) : table :=
  (λ r, if bool_decide (User.id r = User.id u) then u else r) <$> db.

Module UserMethods.

(** [save]: [db.session.add(self); db.session.commit()].  The column
    defaults fill [created_at], [updated_at] and [is_active]; each of the
    two stamps comes from a call of its own to the clock. *)
Definition save (self : User.fresh) (w : ambient) (db : table)
  : User.t * table :=
  let u := User.mk (next_id db) (User.f_name self) (User.f_email self)
             (User.f_age self) (User.f_password self)
             (default_created_at w) (default_updated_at w) true in
  (u, db ++ [u]).

(** [delete]: [db.session.delete(self); db.session.commit()] *)
Definition delete (self : User.t) (db : table) : table :=
  filter (λ r, User.id r ≠ User.id self) db.

(** [update] with its keyword arguments *)
Definition update (self : User.t) (kwargs : dict) (w : ambient) (db : table)
  : User.t * table :=
  let self :=
    foldl (λ self kw,
             if User.hasattr kw && negb (bool_decide (key kw = "id"))
             then User.setattr self kw else self)
          self kwargs in
  let self := User.setattr self (kw_updated_at (utcnow w)) in
  (self, commit_row self db).

End UserMethods.

(** Typed reads of a dictionary: [d.get('email')] and the like. *)
Definition get_name (d : dict) : option str :=
  head (omap (λ kw, match kw with kw_name v => Some v | _ => None end) d).
Definition get_email (d : dict) : option str :=
  head (omap (λ kw, match kw with kw_email v => Some v | _ => None end) d).
Definition get_password (d : dict) : option str :=
  head (omap (λ kw, match kw with kw_password v => Some v | _ => None end) d).
Definition get_age (d : dict) : option Z :=
  mjoin (head (omap (λ kw, match kw with kw_age v => Some v | _ => None end) d)).

(** [d[k]]: a missing key raises [KeyError]. *)
Definition item {A} (k : string) (get : dict → option A) (d : dict) : result A :=
  match get d with
  | Some v => Ok v
  | None => Raise (KeyError k)
  end.

(** [d['password'] = h] for a key that is present. *)
Definition set_password (h : str) (d : dict) : dict :=
  (λ kw, match kw with kw_password _ => kw_password h | _ => kw end) <$> d.

(** ** Responses *)

Inductive payload :=
| One (v : User.view)
| Many (l : list User.view).

(** The envelope [{success, data?, count?, error?, details?, message}]. *)
Record envelope := {
  success : bool;
  data : option payload;
  count : option nat;
  error : option string;
  details : option (gmap string (list string));
  message : str;
}.

Inductive body :=
| Json (e : envelope)
| Msg (msg : string)          (* [{'msg': ...}] *)
| Token (token : str)         (* [{'token': ...}] *)
| UserJson (v : User.view)    (* [user_schema.jsonify(user)] *)
| Unhandled (e : exn).        (* an exception no handler caught *)

Record response := {
  content : body;
  status : Z;
}.

Definition failure (err : string) (msg : str) (code : Z) : response :=
  {| content := Json {| success := false; data := None; count := None;
                        error := Some err; details := None; message := msg |};
     status := code |}.

(** What the framework answers when a view raises. *)
Definition uncaught (e : exn) : response :=
  {| content := Unhandled e; status := 500 |}.

(** ** Credentials and tokens ([auth_utils.py]) *)

(** The pattern [^[a-zA-Z0-9._%+-]+@[a-zA-Z0-9.-]+\.[a-zA-Z]{2,}$]. *)
Definition email_pattern : regex :=
  Cat (Plus (Cls (λ c, is_alpha c || is_digit c || one_of "._%+-" c)))
  (Cat (Chr "@")
  (Cat (Plus (Cls (λ c, is_alpha c || is_digit c || one_of ".-" c)))
  (Cat (Chr ".") (AtLeast2 (Cls is_alpha))))).

(** An argument that may be a [str] or already [bytes]. *)
Inductive text :=
| Str (s : str)
| Bytes (b : bytes).

Module auth_utils.
Section auth_utils.
Context `{Platform}.

Definition encode (s : str) : result bytes :=
  match utf8_encode s with
  | Some b => Ok b
  | None => Raise (UnicodeError "surrogates not allowed")
  end.

Definition decode (b : bytes) : result str :=
  match utf8_decode b with
  | Some s => Ok s
  | None => Raise (UnicodeError "invalid start byte")
  end.

(** [hash_password], in the definition that is in force (the second). *)
Definition hash_password (password : str) (w : ambient) : result str :=
  p ← encode password;
  h ← bcrypt_hashpw p (gensalt w);
  decode h.

Definition check_password (plain_password hashed_password : str)
  : result bool :=
  p ← encode plain_password;
  h ← encode hashed_password;
  bcrypt_checkpw p h.

Definition to_bytes (x : text) : result bytes :=
  match x with
  | Str s => encode s
  | Bytes b => Ok b
  end.

Definition verify_password (password hashed_password : text) : result bool :=
  p ← to_bytes password;
  h ← to_bytes hashed_password;
  bcrypt_checkpw p h.

(** [decode_token]: the payload, or [None] for a token that is expired
    or otherwise invalid. *)
Definition decode_token (token : str) (w : ambient)
  : result (option (gmap string json)) :=
  match jwt_decode token SECRET_KEY (utcnow w) with
  | Ok payload => Ok (Some payload)
  | Raise ExpiredSignatureError => Ok None
  | Raise e => if is_InvalidTokenError e then Ok None else Raise e
  end.

Definition unauthenticated (err : string) (msg : str) : response :=
  failure err msg 401.

(** [token_required(f)], applied to the headers of a request. *)
Definition token_required (f : json → response)
    (headers : gmap string str) (w : ambient) : response :=
  let token :=
    match headers !! "Authorization" with
    | Some auth_header =>
        match split 32 auth_header !! 1%nat with
        | Some t => Ok (Some t)
        | None => Raise (IndexError "list index out of range")
        end
    | None => Ok None
    end in
  match token with
  | Raise _ =>
      unauthenticated "Invalid token format"
        (lit "Token should be in format: Bearer <token>")
  | Ok None | Ok (Some []) =>
      unauthenticated "Missing token" (lit "Authentication token is required")
  | Ok (Some token) =>
      match decode_token token w with
      | Raise e => unauthenticated "Token validation failed" (lit (str_exn e))
      | Ok payload =>
          if negb (from_option (λ p, truthy (JDict p)) false payload) then
            unauthenticated "Invalid token" (lit "Token is invalid or expired")
          else
            match payload ≫= (.!! "user_id") with
            | None =>
                unauthenticated "Token validation failed"
                  (lit (str_exn (KeyError "user_id")))
            | Some current_user_id => f current_user_id
            end
      end
  end.

Definition validate_email_format (email : str) : bool :=
  re_match email_pattern email.

End auth_utils.
End auth_utils.

(** ** The service layer ([user_service.py]) *)

Module UserService.
Section UserService.
Context `{Platform}.

Definition get_all_users (db : table) : list User.t :=
  filter (λ u, User.is_active u = true) db.

Definition get_user_by_id (user_id : Z) (db : table) : option User.t :=
  head (filter (λ u, User.id u = user_id ∧ User.is_active u = true) db).

Definition get_user_by_email (email : str) (db : table) : option User.t :=
  head (filter (λ u, User.email u = email ∧ User.is_active u = true) db).

Definition create_user (user_data : dict) (w : ambient) (db : table)
  : result User.t * table :=
  match item "email" get_email user_data with
  | Raise e => (Raise e, db)
  | Ok email =>
      match first_by_email email db with
      | Some existing_user =>
          (Raise (ValueError "Email address already exists"), db)
      | None =>
          let fresh :=
            password ← item "password" get_password user_data;
            hashed_password ← auth_utils.hash_password password w;
            name ← item "name" get_name user_data;
            Ok (User.init name email hashed_password (get_age user_data)) in
          match fresh with
          | Raise e => (Raise e, db)
          | Ok user =>
              let '(user, db) := UserMethods.save user w db in
              (Ok user, db)
          end
      end
  end.

Definition update_user (user_id : Z) (update_data : dict) (w : ambient)
    (db : table) : result User.t * table :=
  match get_user_by_id user_id db with
  | None => (Raise (ValueError "User not found"), db)
  | Some user =>
      let taken :=
        match get_email update_data with
        | Some email =>
            match first_by_email email db with
            | Some existing_user =>
                bool_decide (User.id existing_user ≠ user_id)
            | None => false
            end
        | None => false
        end in
      if taken then (Raise (ValueError "Email address already exists"), db)
      else
        let hashed :=
          match get_password update_data with
          | Some password =>
              h ← auth_utils.hash_password password w;
              Ok (set_password h update_data)
          | None => Ok update_data
          end in
        match hashed with
        | Raise e => (Raise e, db)
        | Ok update_data =>
            let '(user, db) := UserMethods.update user update_data w db in
            (Ok user, db)
        end
  end.

Definition delete_user (user_id : Z) (w : ambient) (db : table)
  : result bool * table :=
  match get_user_by_id user_id db with
  | None => (Raise (ValueError "User not found"), db)
  | Some user =>
      let '(_, db) := UserMethods.update user [kw_is_active false] w db in
      (Ok true, db)
  end.

Definition permanently_delete_user (user_id : Z) (db : table)
  : result bool * table :=
  match query_get user_id db with
  | None => (Raise (ValueError "User not found"), db)
  | Some user => (Ok true, UserMethods.delete user db)
  end.

Definition search_users (query : str) (db : table) : list User.t :=
  let search_term := lit "%" ++ query ++ lit "%" in
  filter (λ u, (ilike search_term (User.name u) = true
                ∨ ilike search_term (User.email u) = true)
               ∧ User.is_active u = true) db.

Definition authenticate_user (email password : str) (db : table)
  : result (option User.t) :=
  match head (filter (λ u, User.email u = email ∧ User.is_active u = true) db) with
  | Some user =>
      ok ← auth_utils.verify_password (Str password) (Str (User.password user));
      Ok (if ok : bool then Some user else None)
  | None => Ok None
  end.

Definition get_user_count (db : table) : nat :=
  length (filter (λ u, User.is_active u = true) db).

Definition toggle_user_status (user_id : Z) (w : ambient) (db : table)
  : result User.t * table :=
  match query_get user_id db with
  | None => (Raise (ValueError "User not found"), db)
  | Some user =>
      let '(user, db) :=
        UserMethods.update user [kw_is_active (negb (User.is_active user))] w db in
      (Ok user, db)
  end.

End UserService.
End UserService.

(** ** Validation ([user_schema.py]) *)

(** The outcome of loading one field. *)
Inductive loaded (A : Type) :=
| Missing                      (* no such key, and none required *)
| Errors (msgs : list string)
| Value (v : option A).        (* [None]: an accepted null *)
Arguments Missing {A}.
Arguments Errors {A} msgs.
Arguments Value {A} v.

(** A declared field: [fields.X(required=..., allow_none=...,
    validate=[...], error_messages={...})]. *)
Record field (A : Type) := {
  required : bool;
  allow_none : bool;
  deserialize : json → option A;
  validate : list (A → option string);
  msg_required : string;
  msg_invalid : json → string;  (* the message for a value not converted *)
}.
Arguments required {A} f.
Arguments allow_none {A} f.
Arguments deserialize {A} f v.
Arguments validate {A} f.
Arguments msg_required {A} f.
Arguments msg_invalid {A} f v.

(** [Field.deserialize]: the required check, the null check, the
    conversion of the type, then every validator, whose messages are all
    collected. *)
Definition load_field {A} (f : field A) (raw : option json) : loaded A :=
  match raw with
  | None => if required f then Errors [msg_required f] else Missing
  | Some JNull =>
      if allow_none f then Value None else Errors ["Field may not be null."]
  | Some v =>
      match deserialize f v with
      | None => Errors [msg_invalid f v]
      | Some x =>
          match omap (λ check, check x) (validate f) with
          | [] => Value (Some x)
          | msgs => Errors msgs
          end
      end
  end.

Module validate_.

(** [validate.Length(min=..., max=...)] *)
Definition Length (min max : option nat) (value : str) : option string :=
  let length := length value in
  let too_short := from_option (λ m, bool_decide (length < m)%nat) false min in
  let too_long := from_option (λ m, bool_decide (m < length)%nat) false max in
  match min, max with
  | Some lo, Some hi =>
      if too_short || too_long
      then Some ("Length must be between " +:+ pretty lo +:+ " and "
                 +:+ pretty hi +:+ ".")
      else None
  | Some lo, None =>
      if too_short then Some ("Shorter than minimum length " +:+ pretty lo +:+ ".")
      else None
  | None, Some hi =>
      if too_long then Some ("Longer than maximum length " +:+ pretty hi +:+ ".")
      else None
  | None, None => None
  end.

(** [validate.Regexp(pattern, error=...)] *)
Definition Regexp (pattern : regex) (error : string) (value : str)
  : option string :=
  if re_match pattern value then None else Some error.

(** [validate.Range(min=..., max=...)] *)
Definition Range (min max : Z) (value : Z) : option string :=
  if (value <? min) || (max <? value)
  then Some ("Must be greater than or equal to " +:+ pretty min
             +:+ " and less than or equal to " +:+ pretty max +:+ ".")
  else None.

End validate_.

Module fields.
Section fields.
Context `{Platform}.

Definition Str_deserialize (v : json) : option str :=
  match v with
  | JStr s => Some s
  | _ => None
  end.

(** [int(value)] as the non-strict [fields.Int] calls it: a [float] loses
    its fraction, a text is parsed, [True] and [False] are refused. *)
Definition Int_deserialize (v : json) : option Z :=
  match v with
  | JInt z => Some z
  | JFloat f => float_trunc f
  | JStr s => int_of_str s
  | _ => None
  end.

(** [int(value)] raised [OverflowError]. *)
Definition Int_too_large (v : json) : bool :=
  match v with
  | JFloat (S754_infinity _) => true
  | _ => false
  end.

(** [fields.Bool]: [value in truthy], then [value in falsy]; the sets hold
    [True], [1] and texts such as ["true"], and a [float] equal to 1 or to
    0 is found in them as the integer is. *)
Definition Bool_deserialize (v : json) : option bool :=
  match v with
  | JBool b => Some b
  | JInt 1 => Some true
  | JInt 0 => Some false
  | JFloat f =>
      if float_is 1 f then Some true
      else if float_is 0 f then Some false
      else None
  | JStr s =>
      if bool_decide (s ∈ lit <$> ["t"; "T"; "true"; "True"; "TRUE"; "on";
                        "On"; "ON"; "y"; "Y"; "yes"; "Yes"; "YES"; "1"])
      then Some true
      else if bool_decide (s ∈ lit <$> ["f"; "F"; "false"; "False"; "FALSE";
                             "off"; "Off"; "OFF"; "n"; "N"; "no"; "No";
                             "NO"; "0"])
      then Some false
      else None
  | _ => None
  end.

(** [fields.Str(...)] *)
Definition Str (required : bool) (validate : list (str → option string))
    (msg_required msg_invalid : string) : field str :=
  {| required := required; allow_none := false;
     deserialize := Str_deserialize; validate := validate;
     msg_required := msg_required; msg_invalid := λ _, msg_invalid |}.

(** [fields.Email(...)]: a text field whose first validator is
    [validate.Email]. *)
Definition Email (required : bool) (validate : list (str → option string))
    (msg_required : string) : field str :=
  let invalid := "Not a valid email address." in
  {| required := required; allow_none := false;
     deserialize := Str_deserialize;
     validate :=
       (λ value, if email_validator value then None else Some invalid)
         :: validate;
     msg_required := msg_required; msg_invalid := λ _, invalid |}.

(** [fields.Int(allow_none=True, ...)] *)
Definition Int (allow_none : bool) (validate : list (Z → option string))
    (msg_invalid : string) : field Z :=
  {| required := false; allow_none := allow_none;
     deserialize := Int_deserialize; validate := validate;
     msg_required := "Missing data for required field.";
     msg_invalid := λ v, if Int_too_large v then "Number too large."
                         else msg_invalid |}.

(** [fields.Bool()] *)
Definition Bool : field bool :=
  {| required := false; allow_none := false;
     deserialize := Bool_deserialize; validate := [];
     msg_required := "Missing data for required field.";
     msg_invalid := λ _, "Not a valid boolean." |}.

End fields.
End fields.

(** The pattern [^[a-zA-Z\s]+$]. *)
Definition name_pattern : regex := Plus (Cls (λ c, is_alpha c || is_space c)).

Abbreviation errors := (gmap string (list string)).

(** A field as a schema declares it: what it makes of the raw value under
    its key, either messages or the entries it adds to the loaded data
    (none when the key is absent, one otherwise). *)
Definition declared := option json → list string + dict.

Definition declare {A} (f : field A) (entry : option A → option kwarg)
  : declared :=
  λ raw, match load_field f raw with
         | Errors msgs => inl msgs
         | Value v => inr (option_list (entry v))
         | Missing => inr []
         end.

(** The messages of the declared fields, one entry per rejected field. *)
Definition field_messages (fields : list (string * declared))
    (m : gmap string json) : errors :=
  foldr (λ '(k, f) acc, match f (m !! k) with
                        | inl msgs => <[ k := msgs ]> acc
                        | inr _ => acc
                        end) ∅ fields.

(** The loaded data of the declared fields, in the order of declaration. *)
Definition field_values (fields : list (string * declared))
    (m : gmap string json) : dict :=
  flat_map (λ '(k, f), match f (m !! k) with
                       | inl _ => []
                       | inr kws => kws
                       end) fields.

(** Keys of the input that no loadable field declares: [unknown=RAISE]. *)
Definition unknown_fields (fields : list (string * declared))
    (m : gmap string json) : errors :=
  (λ _, ["Unknown field."]) <$> filter (λ kv, kv.1 ∉ fields.*1) m.

Definition invalid_input_type : errors := {[ "_schema" := ["Invalid input type."] ]}.

(** [Schema.load]: every declared field is loaded and all messages are
    gathered; the [post_load] hook runs only on input that produced none. *)
Definition Schema_load (fields : list (string * declared))
    (post_load : dict → result dict) (json_data : json) : result dict :=
  match json_data with
  | JDict m =>
      let errs := field_messages fields m ∪ unknown_fields fields m in
      if bool_decide (errs = ∅) then post_load (field_values fields m)
      else Raise (ValidationError errs)
  | _ => Raise (ValidationError invalid_input_type)
  end.

(** The [post_load] hook of both schemas. *)
Definition validate_email_format (data : dict) : result dict :=
  match get_email data with
  | Some email =>
      if negb (bool_decide (email = [])) && negb (re_match email_pattern email)
      then Raise (ValidationError {[ "email" := ["Invalid email format"] ]})
      else Ok data
  | None => Ok data
  end.

(** The second class named [UserSchema], the one the routes use.  Its
    fields [id], [is_active], [created_at] and [updated_at] are
    [dump_only]: loading does not declare them. *)
Module UserSchema.
Section UserSchema.
Context `{Platform}.

Definition name : field str :=
  fields.Str true
    [validate_.Length (Some 2%nat) (Some 100%nat);
     validate_.Regexp name_pattern "Name can only contain letters and spaces"]
    "Name is required" "Not a valid string.".

Definition email : field str :=
  fields.Email true [validate_.Length None (Some 120%nat)] "Email is required".

Definition age : field Z :=
  fields.Int true [validate_.Range 1 150] "Age must be between 1 and 150".

Definition password : field str :=
  fields.Str true [validate_.Length (Some 6%nat) (Some 128%nat)]
    "Password is required" "Password must be at least 6 characters long".

Definition load_fields : list (string * declared) :=
  [("name", declare name (fmap kw_name));
   ("email", declare email (fmap kw_email));
   ("age", declare age (λ v, Some (kw_age v)));
   ("password", declare password (fmap kw_password))].

Definition load : json → result dict :=
  Schema_load load_fields validate_email_format.

(** [dump] *)
Definition dump (user : User.t) : User.view := User.to_dict user.

End UserSchema.
End UserSchema.

Module UserUpdateSchema.
Section UserUpdateSchema.
Context `{Platform}.

Definition name : field str :=
  fields.Str false
    [validate_.Length (Some 2%nat) (Some 100%nat);
     validate_.Regexp name_pattern "Name can only contain letters and spaces"]
    "Missing data for required field." "Not a valid string.".

Definition email : field str :=
  fields.Email false [validate_.Length None (Some 120%nat)]
    "Missing data for required field.".

Definition age : field Z :=
  fields.Int true [validate_.Range 1 150] "Age must be between 1 and 150".

Definition password : field str :=
  fields.Str false [validate_.Length (Some 6%nat) (Some 128%nat)]
    "Missing data for required field."
    "Password must be at least 6 characters long".

Definition is_active : field bool := fields.Bool.

Definition load_fields : list (string * declared) :=
  [("name", declare name (fmap kw_name));
   ("email", declare email (fmap kw_email));
   ("age", declare age (λ v, Some (kw_age v)));
   ("password", declare password (fmap kw_password));
   ("is_active", declare is_active (fmap kw_is_active))].

Definition load : json → result dict :=
  Schema_load load_fields validate_email_format.

End UserUpdateSchema.
End UserUpdateSchema.

(** ** The user routes ([user_routes.py]) *)

Definition reply (pl : option payload) (n : option nat) (msg : str) (code : Z)
  : response :=
  {| content := Json {| success := true; data := pl; count := n;
                        error := None; details := None; message := msg |};
     status := code |}.

Definition validation_error (messages : errors) : response :=
  {| content := Json {| success := false; data := None; count := None;
                        error := Some "Validation error";
                        details := Some messages;
                        message := lit "Invalid input data" |};
     status := 400 |}.

Definition not_found (user_id : Z) : response :=
  failure "User not found"
    (lit ("User with ID " +:+ pretty user_id +:+ " does not exist")) 404.

Definition no_input : response :=
  failure "No input data provided" (lit "Request body must contain JSON data") 400.

(** The two [except] arms that close a handler: [ValueError] first, then
    [Exception]. *)
Definition handle (e : exn) (msg : string) : response :=
  if is_ValueError e then failure (str_exn e) (lit msg) 400
  else failure (str_exn e) (lit "Internal server error") 500.

Module user_routes.
Section user_routes.
Context `{Platform}.

(** [GET /users] *)
Definition get_all_users (db : table) : response :=
  let result := UserSchema.dump <$> UserService.get_all_users db in
  reply (Some (Many result)) (Some (length result))
    (lit "Users retrieved successfully") 200.

(** [GET /users/<id>] *)
Definition get_user (user_id : Z) (db : table) : response :=
  match UserService.get_user_by_id user_id db with
  | None => not_found user_id
  | Some user =>
      reply (Some (One (UserSchema.dump user))) None
        (lit "User retrieved successfully") 200
  end.

(** [POST /users] *)
Definition create_user (json_data : json) (w : ambient) (db : table)
  : response * table :=
  if negb (truthy json_data) then (no_input, db)
  else
    match UserSchema.load json_data with
    | Raise (ValidationError messages) => (validation_error messages, db)
    | Raise e => (handle e "Failed to create user", db)
    | Ok data =>
        match UserService.create_user data w db with
        | (Ok user, db) =>
            (reply (Some (One (UserSchema.dump user))) None
               (lit "User created successfully") 201, db)
        | (Raise e, db) => (handle e "Failed to create user", db)
        end
    end.

(** [PUT /users/<id>] *)
Definition update_user (user_id : Z) (json_data : json) (w : ambient)
    (db : table) : response * table :=
  match UserService.get_user_by_id user_id db with
  | None => (not_found user_id, db)
  | Some existing_user =>
      if negb (truthy json_data) then (no_input, db)
      else
        match UserUpdateSchema.load json_data with
        | Raise (ValidationError messages) => (validation_error messages, db)
        | Raise e => (handle e "Failed to update user", db)
        | Ok data =>
            match UserService.update_user user_id data w db with
            | (Ok user, db) =>
                (reply (Some (One (UserSchema.dump user))) None
                   (lit "User updated successfully") 200, db)
            | (Raise e, db) => (handle e "Failed to update user", db)
            end
        end
  end.

(** [DELETE /users/<id>] *)
Definition delete_user (user_id : Z) (w : ambient) (db : table)
  : response * table :=
  match UserService.get_user_by_id user_id db with
  | None => (not_found user_id, db)
  | Some user =>
      match UserService.delete_user user_id w db with
      | (Ok _, db) => (reply None None (lit "User deleted successfully") 200, db)
      | (Raise e, db) => (failure (str_exn e) (lit "Failed to delete user") 500, db)
      end
  end.

(** [GET /users/search?q=...]; [q] is [None] when the parameter is
    absent. *)
Definition search_users (q : option str) (db : table) : response :=
  let query := default [] q in
  match query with
  | [] =>
      failure "Search query required"
        (lit "Please provide a search query using ?q=search_term") 400
  | _ =>
      let result := UserSchema.dump <$> UserService.search_users query db in
      reply (Some (Many result)) (Some (length result))
        (lit "Search results for: " ++ query) 200
  end.

End user_routes.
End user_routes.

(** ** The authentication routes ([auth_routes.py]) *)

(** [data[k]] on the parsed body. *)
Definition subscript (data : json) (k : string) : result json :=
  match data with
  | JDict m =>
      match m !! k with
      | Some v => Ok v
      | None => Raise (KeyError k)
      end
  | _ => Raise (TypeError "object is not subscriptable")
  end.

(** [type(v).__name__] *)
Definition type_name (v : json) : string :=
  match v with
  | JNull => "NoneType"
  | JBool _ => "bool"
  | JInt _ => "int"
  | JFloat _ => "float"
  | JStr _ => "str"
  | JList _ => "list"
  | JDict _ => "dict"
  end.

(** The handlers of [auth_routes.py] pass the values of the body on as
    they come.  The columns [name] and [email] hold text and [age] an
    integer or null: a text, an integer and a null are stored as they are,
    and a value of another type is stored as the store takes it. *)
Definition as_text `{Platform} (v : json) : result str :=
  match v with
  | JStr s => Ok s
  | _ => store_text v
  end.

Definition as_age `{Platform} (v : option json) (default : Z)
  : result (option Z) :=
  match v with
  | None => Ok (Some default)
  | Some JNull => Ok None
  | Some (JInt z) => Ok (Some z)
  | Some v => store_integer v
  end.

(** [v.encode('utf-8')] is an attribute of a text only. *)
Definition encodable (v : json) : result str :=
  match v with
  | JStr s => Ok s
  | _ => Raise (AttributeError ("'" +:+ type_name v
                                +:+ "' object has no attribute 'encode'"))
  end.

(** [User.query.filter_by(email=v).first()] for a value of the body; a
    null is compared with [IS NULL], and the column has no null. *)
Definition filter_by_email `{Platform} (v : json) (db : table)
  : result (option User.t) :=
  match v with
  | JNull => Ok None
  | _ => email ← as_text v; Ok (first_by_email email db)
  end.

(** [data.get(k)] *)
Definition get (data : json) (k : string) : option json :=
  match data with
  | JDict m => m !! k
  | _ => None
  end.

Module auth_routes.
Section auth_routes.
Context `{Platform}.

(** [POST /register] *)
Definition register (data : json) (w : ambient) (db : table)
  : response * table :=
  let outcome :=
    email ← subscript data "email";
    existing ← filter_by_email email db;
    match existing with
    | Some _ => Ok ({| content := Msg "Email already exists"; status := 409 |}, db)
    | None =>
        name ← subscript data "name";
        password ← subscript data "password" ≫= encodable;
        hashed ← auth_utils.hash_password password w;
        let age := get data "age" in
        (* the commit binds the values to their columns *)
        name ← as_text name;
        email ← as_text email;
        age ← as_age age 0;
        let '(user, db) := UserMethods.save (User.init name email hashed age) w db in
        Ok ({| content := UserJson (User.to_dict user); status := 201 |}, db)
    end in
  match outcome with
  | Ok r => r
  | Raise e => (uncaught e, db)
  end.

(** [POST /login] *)
Definition login (data : json) (db : table) : response :=
  let invalid := {| content := Msg "Invalid credentials"; status := 401 |} in
  let outcome :=
    email ← subscript data "email";
    user ← filter_by_email email db;
    match user with
    | None => Ok invalid
    | Some user =>
        password ← subscript data "password" ≫= encodable;
        ok ← auth_utils.check_password password (User.password user);
        if ok : bool then
          Ok {| content := Token (create_access_token (User.id user));
                status := 200 |}
        else Ok invalid
    end in
  match outcome with
  | Ok r => r
  | Raise e => uncaught e
  end.

End auth_routes.
End auth_routes.

(** ** A sample platform

    One behaviour of the packages, on which runs of the program are
    computed.  It keeps what decides the control flow of the program (which
    arguments a package rejects, and how), and puts a stand-in where a
    package does cryptography. *)

Module Sample.

(** [re.fullmatch]: the pattern must end where the text ends ([\Z]). *)
Definition fullmatch (r : regex) (s : str) : bool :=
  nullable (foldl (λ r c, deriv c r) r s).

(** [s.rsplit(sep, 1)] when [sep] occurs in [s]. *)
Fixpoint rsplit1 (sep : N) (s : str) : option (str * str) :=
  match s with
  | [] => None
  | c :: s' =>
      match rsplit1 sep s' with
      | Some (u, d) => Some (c :: u, d)
      | None => if (c =? sep)%N then Some ([], s') else None
      end
  end.

Definition is_alnum (c : N) : bool := is_alpha c || is_digit c.

(** The dot-atom form of the local part and the host-name form of the
    domain, as marshmallow's validator reads them on ASCII input (the
    quoted local part, the address literal and the IDNA retry are left
    out). *)
Definition atom : regex :=
  Plus (Cls (λ c, is_alnum c || one_of "-!#$%&'*+/=?^`{}|~_" c)).
Definition user_regex : regex := Cat atom (Star (Cat (Chr ".") atom)).
Definition label : regex :=
  Cat (Cls is_alnum)
      (Alt Eps (Cat (Star (Cls (λ c, is_alnum c || one_of "-" c)))
                    (Cls is_alnum))).
Definition domain_regex : regex :=
  Cat (Plus (Cat label (Chr ".")))
      (AtLeast2 (Cls (λ c, is_alnum c || one_of "-" c))).

Definition email_validator (value : str) : bool :=
  match rsplit1 64 value with
  | Some (user_part, domain_part) =>
      fullmatch user_regex user_part
      && (bool_decide (domain_part = lit "localhost")
          || fullmatch domain_regex domain_part)
  | None => false
  end.

(** [int(s)] for an optional sign followed by decimal digits. *)
Definition digits (s : str) : option Z :=
  match s with
  | [] => None
  | _ => if forallb is_digit s
         then Some (foldl (λ acc c, 10 * acc + (Z.of_N c - 48)) 0 s)
         else None
  end.

Definition int_of_str (s : str) : option Z :=
  match s with
  | 45%N :: r => Z.opp <$> digits r
  | 43%N :: r => digits r
  | _ => digits s
  end.

(** A digest [$2b$NN$] followed by 22 characters of salt and 31 of hash,
    in the alphabet of bcrypt; the last character of the salt carries four
    bits only.  [parse_salt] gives the 29 characters that a hash shares
    with its salt. *)
Definition is_bcrypt64 (c : N) : bool := is_alnum c || one_of "./" c.

Definition parse_salt (salt : bytes) : option bytes :=
  match split 36 salt with
  | [[]; version; cost; rest] =>
      if bool_decide (version ∈ lit <$> ["2a"; "2b"; "2x"; "2y"])
         && bool_decide (length cost = 2%nat) && forallb is_digit cost
         && bool_decide (22 ≤ length rest)%nat
         && forallb is_bcrypt64 (take 22 rest)
         && from_option (one_of ".Oeu") false (rest !! 21%nat)
      then Some (take 29 salt)
      else None
  | _ => None
  end.

(** The stand-in for the Blowfish rounds: 31 letters computed from the
    password and the salt. *)
Definition rounds (password prefix : bytes) : bytes :=
  take 31 ((λ b, 65 + b mod 26)%N <$> (password ++ prefix ++ replicate 31 0%N)).

Definition hashpw (password salt : bytes) : result bytes :=
  if bool_decide (0%N ∈ password)
  then Raise (ValueError "embedded null byte")
  else match parse_salt salt with
       | Some prefix => Ok (prefix ++ rounds password prefix)
       | None => Raise (ValueError "Invalid salt")
       end.

Definition checkpw (password hashed_password : bytes) : result bool :=
  ret ← hashpw password hashed_password;
  Ok (bool_decide (ret = hashed_password)).

(** A token is its user id, its expiry and its signature, one code point
    each for the first two; the signature of a key is the key. *)
Definition jwt_encode (user_id exp : Z) (key : str) : str :=
  Z.to_N user_id :: Z.to_N exp :: key.

Definition jwt_decode (token key : str) (now : Z)
  : result (gmap string json) :=
  match token with
  | user_id :: exp :: signature =>
      if bool_decide (signature = key) then
        if Z.of_N exp <=? now then Raise ExpiredSignatureError
        else Ok {[ "user_id" := JInt (Z.of_N user_id);
                   "exp" := JInt (Z.of_N exp) ]}
      else Raise InvalidSignatureError
  | _ => Raise DecodeError
  end.

Definition secret : str := lit "dev-secret-key".

(** A store that takes an integer for the text of its decimal digits and
    refuses every other value of a wrong type. *)
Definition store_text (v : json) : result str :=
  match v with
  | JInt z => Ok (lit (pretty z))
  | _ => Raise (Exception "the value is refused by the store")
  end.

Definition store_integer (v : json) : result (option Z) :=
  Raise (Exception "the value is refused by the store").

#[export] Instance platform : Platform :=
  Build_Platform hashpw checkpw jwt_decode
    (λ identity, jwt_encode identity 3600 secret)
    email_validator int_of_str secret store_text store_integer.

Definition salt : bytes := lit "$2b$12$abcdefghijklmnopqrstuu".
(** The surroundings at the reading [now]; the second column default of
    an insert reads the clock one microsecond after the first. *)
Definition world (now : Z) : ambient :=
  {| utcnow := now; gensalt := salt;
     default_created_at := now; default_updated_at := now + 1 |}.

(** The digest of the password [secret1] under [salt]. *)
Definition digest : str :=
  Eval vm_compute in
    match auth_utils.hash_password (lit "secret1") (world 0) with
    | Ok h => h
    | Raise _ => []
    end.

(** A registered user, and the same user after a soft delete. *)
Definition ann : User.t :=
  User.mk 1 (lit "Ann Lee") (lit "ann@x.com") None digest 100 100 true.
Definition ann_deleted : User.t :=
  User.mk 1 (lit "Ann Lee") (lit "ann@x.com") None digest 100 200 false.

(** The body of a creation request. *)
Definition body (name : str) (email password : string) : gmap string json :=
  {[ "name" := JStr name; "email" := JStr (lit email);
     "password" := JStr (lit password) ]}.

(** A token that expired at 50, and a token signed with another key. *)
Definition expired_token : str := jwt_encode 1 50 secret.
Definition forged_token : str := jwt_encode 1 3600 (lit "another-key").

Definition credentials (email password : string) : json :=
  JDict {[ "email" := JStr (lit email); "password" := JStr (lit password) ]}.

End Sample.

(** ** The words of the specification

    Definitions that follow the specification rather than the source, for
    the statements that compare the two. *)

(** [q] occurs in [t] as a run of consecutive characters. *)
Fixpoint starts_with (q t : str) : bool :=
  match q, t with
  | [], _ => true
  | _ :: _, [] => false
  | c :: q', x :: t' => (c =? x)%N && starts_with q' t'
  end.

Fixpoint substring (q t : str) : bool :=
  starts_with q t || match t with [] => false | _ :: t' => substring q t' end.

(** Substring match under case-insensitive comparison. *)
Definition contains_ci (q t : str) : bool := substring (lower q) (lower t).

(** No character of the text is a [LIKE] wildcard. *)
Definition plain (q : str) : Prop := Forall (λ c, c ≠ 37%N ∧ c ≠ 95%N) q.

(** ** The create rules, as the schema has them

    What makes [UserSchema] refuse the body of a creation request, field
    by field; these follow the declarations of the schema, not the wording
    of the specification.  [raw] is the value under the key of the field,
    [None] when the key is missing. *)
Section CreateRules.
Context `{Platform}.

(** Missing, not a text, not 2 to 100 characters, or with a character
    that is neither an ASCII letter nor white space. *)
Definition name_violation (raw : option json) : Prop :=
  match raw with
  | Some (JStr s) =>
      (length s < 2)%nat ∨ (100 < length s)%nat
      ∨ ∃ c, c ∈ s ∧ is_alpha c = false ∧ is_space c = false
  | _ => True
  end.

(** Missing, not a text, refused by the e-mail validator, longer than
    120 characters, or not matching the explicit pattern. *)
Definition email_violation (raw : option json) : Prop :=
  match raw with
  | Some (JStr s) =>
      email_validator s = false ∨ (120 < length s)%nat
      ∨ (s ≠ [] ∧ re_match email_pattern s = false)
  | _ => True
  end.

(** Missing, not a text, or not 6 to 128 characters. *)
Definition password_violation (raw : option json) : Prop :=
  match raw with
  | Some (JStr s) => (length s < 6)%nat ∨ (128 < length s)%nat
  | _ => True
  end.

(** Present, not null, and not read by [fields.Int] as an integer from 1
    to 150.  The field is not strict: a [float] counts as the integer it
    is cut to and a text as the integer [int] parses from it, so neither
    [30.5] nor the text [30] breaks the rule. *)
Definition age_violation (raw : option json) : Prop :=
  match raw with
  | None | Some JNull => False
  | Some v => ∀ z, fields.Int_deserialize v = Some z → z < 1 ∨ 150 < z
  end.

Definition violates_create_rules (json_data : json) : Prop :=
  match json_data with
  | JDict m =>
      name_violation (m !! "name") ∨ email_violation (m !! "email")
      ∨ password_violation (m !! "password") ∨ age_violation (m !! "age")
  | _ => True
  end.
End CreateRules.

(** ** The rest of the helpers ([auth_utils.py]) *)

(** [s.replace(old, new)] for a one-character [old]. *)
Definition replace (old : N) (new : str) (s : str) : str :=
  s ≫= (λ c, if (c =? old)%N then new else [c]).

(** [s.strip()]: white space is taken off both ends. *)
Fixpoint lstrip (s : str) : str :=
  match s with
  | [] => []
  | c :: s' => if is_space c then lstrip s' else s
  end.

Definition rstrip (s : str) : str := reverse (lstrip (reverse s)).

Definition strip (s : str) : str := rstrip (lstrip s).

(** [sanitize_input]: the five replacements, the ampersand first, then the
    strip; an empty text is returned as it is. *)
Definition sanitize_input (input_string : str) : str :=
  match input_string with
  | [] => input_string
  | _ =>
      let input_string := replace 38 (lit "&amp;") input_string in
      let input_string := replace 60 (lit "&lt;") input_string in
      let input_string := replace 62 (lit "&gt;") input_string in
      let input_string := replace 34 (lit "&quot;") input_string in
      let input_string := replace 39 (lit "&#x27;") input_string in
      strip input_string
  end.

(** [string.ascii_letters + string.digits + "!@#$%^&*"] *)
Definition password_characters : str :=
  lit "abcdefghijklmnopqrstuvwxyzABCDEFGHIJKLMNOPQRSTUVWXYZ"
  ++ lit "0123456789" ++ lit "!@#$%^&*".

(** [generate_random_password(length)]; [choice i] is the [i]-th call of
    [random.choice]. *)
Definition generate_random_password (choice : nat → str → N) (length : nat)
  : str :=
  (λ i, choice i password_characters) <$> seq 0 length.

(** ** The login schema ([user_schema.py]) *)

Module UserLoginSchema.
Section UserLoginSchema.
Context `{Platform}.

Definition email : field str := fields.Email true [] "Email is required".

Definition password : field str :=
  fields.Str true [] "Password is required" "Not a valid string.".

Definition load_fields : list (string * declared) :=
  [("email", declare email (fmap kw_email));
   ("password", declare password (fmap kw_password))].

(** The class has no [post_load] hook. *)
Definition load : json → result dict := Schema_load load_fields Ok.

End UserLoginSchema.
End UserLoginSchema.

(** ** The sample users ([run.py]) *)

Definition sample_users : list (string * string * Z * string) :=
  [("John Doe", "john@example.com", 30, "password123");
   ("Jane Smith", "jane@example.com", 25, "password456");
   ("Bob Johnson", "bob@example.com", 35, "password789")].

(** The loop of [create_sample_users]: a user is added when no row has the
    email; [w i] is what the [i]-th turn reads from its surroundings. *)
Fixpoint add_sample_users `{Platform} (users : list (string * string * Z * string))
    (i : nat) (w : nat → ambient) (db : table) : result table :=
  match users with
  | [] => Ok db
  | (name, email, age, password) :: users =>
      match first_by_email (lit email) db with
      | Some existing_user => add_sample_users users (S i) w db
      | None =>
          hashed ← auth_utils.hash_password (lit password) (w i);
          let user := User.init (lit name) (lit email) hashed (Some age) in
          add_sample_users users (S i) w (UserMethods.save user (w i) db).2
      end
  end.

(** [create_sample_users]: the table after the commit that ends the loop;
    when the loop raises, nothing was committed. *)
Definition create_sample_users `{Platform} (w : nat → ambient) (db : table)
  : result table :=
  add_sample_users sample_users 0 w db.

(** ** The constraints of the table ([user.py])

    [id] is the primary key and [email] is declared [unique=True]. *)
Definition unique_ids (db : table) : Prop := NoDup (User.id <$> db).
Definition unique_emails (db : table) : Prop := NoDup (User.email <$> db).

(** A second sample platform: [random.choice] as a walk through its
    argument, and a table of two users. *)
Module Demo.

Definition choice (i : nat) (l : str) : N :=
  default 0%N (l !! ((i * 7) `mod` length l)%nat).

Definition bob : User.t :=
  User.mk 2 (lit "Bob Johnson") (lit "bob@example.com") (Some 35) Sample.digest
    150 150 true.

Definition users : table := [Sample.ann; bob].

(** The data of a third user, and the row that [create_user] makes of them
    at the reading 300. *)
Definition data : dict :=
  [kw_name (lit "Cy Young"); kw_email (lit "cy@x.com");
   kw_password (lit "secret1")].

Definition cy : User.t :=
  User.mk 3 (lit "Cy Young") (lit "cy@x.com") None Sample.digest 300 301 true.

(** A token of user 1 that expires at 3600. *)
Definition token : str := Sample.jwt_encode 1 3600 Sample.secret.

End Demo.

(** * Properties *)

(** ** Patterns *)

Lemma nullable_lang r : nullable r = true → lang r [].
Proof.
  induction r; simpl; intros Hn; try discriminate.
  - constructor.
  - apply andb_prop in Hn as [H1 H2].
    change (@nil N) with (@nil N ++ []). constructor; auto.
  - apply orb_prop in Hn as [Hn|Hn]; [apply lang_alt_l | apply lang_alt_r]; auto.
  - constructor.
Qed.

Lemma deriv_lang c r s : lang (deriv c r) s → lang r (c :: s).
Proof.
  revert s. induction r; simpl; intros s Hl.
  - inversion Hl.
  - inversion Hl.
  - destruct (p c) eqn:Hp; inversion Hl; subst. by constructor.
  - destruct (nullable r1) eqn:Hn.
    + inversion Hl as [| | | ? ? ? Hl' | ? ? ? Hl' | |]; subst.
      * inversion Hl'; subst.
        change (c :: s1 ++ s2) with ((c :: s1) ++ s2). constructor; auto.
      * change (c :: s) with ([] ++ c :: s).
        constructor; auto using nullable_lang.
    + inversion Hl; subst.
      change (c :: s1 ++ s2) with ((c :: s1) ++ s2). constructor; auto.
  - inversion Hl; subst; [apply lang_alt_l | apply lang_alt_r]; auto.
  - inversion Hl; subst.
    change (c :: s1 ++ s2) with ((c :: s1) ++ s2). constructor; auto.
Qed.

(** A successful match reads a word of the pattern, up to a final newline. *)
Lemma re_match_lang r s :
  re_match r s = true → lang r s ∨ ∃ s', s = s' ++ [10%N] ∧ lang r s'.
Proof.
  revert r. induction s as [|c s IH]; simpl; intros r Hm.
  - left. by apply nullable_lang.
  - apply orb_prop in Hm as [Hm|Hm].
    + apply andb_prop in Hm as [Hn Hs]. apply bool_decide_eq_true in Hs.
      right. exists []. split; [done | by apply nullable_lang].
    + destruct (IH _ Hm) as [Hl | (s' & -> & Hl)].
      * left. by apply deriv_lang.
      * right. exists (c :: s'). split; [done | by apply deriv_lang].
Qed.

Lemma lang_star_cls p s : lang (Star (Cls p)) s → Forall (λ c, p c = true) s.
Proof.
  remember (Star (Cls p)) as r eqn:Hr. induction 1; try discriminate.
  - constructor.
  - injection Hr as ->. inversion H; subst. constructor; auto.
Qed.

Lemma lang_plus_cls p s :
  lang (Plus (Cls p)) s → s ≠ [] ∧ Forall (λ c, p c = true) s.
Proof.
  unfold Plus. inversion 1 as [| |? ? ? ? H1 H2| | | |]; subst.
  inversion H1; subst. split; [done |].
  constructor; [done | by apply lang_star_cls].
Qed.

(** What the pattern of a name accepts consists of letters and white
    space only. *)
Lemma name_pattern_chars s :
  re_match name_pattern s = true →
  s ≠ [] ∧ Forall (λ c, is_alpha c || is_space c = true) s.
Proof.
  intros Hm. destruct (re_match_lang _ _ Hm) as [Hl | (s' & -> & Hl)];
    apply lang_plus_cls in Hl as [Hne Hall].
  - done.
  - split; [by destruct s' |].
    apply Forall_app. split; [done |]. by repeat constructor.
Qed.

Lemma lang_nil_nullable r s : lang r s → s = [] → nullable r = true.
Proof.
  induction 1; simpl; intros Hs; try done.
  - apply app_eq_nil in Hs as [-> ->]. by rewrite IHlang1, IHlang2.
  - by rewrite IHlang.
  - rewrite IHlang by done. apply orb_true_r.
Qed.

Lemma lang_deriv r s : lang r s → ∀ c s', s = c :: s' → lang (deriv c r) s'.
Proof.
  induction 1 as [|p c0 Hp|r1 r2 s1 s2 H1 IH1 H2 IH2|r1 r2 s H1 IH1
                 |r1 r2 s H2 IH2|r|r s1 s2 H1 IH1 H2 IH2];
    intros c s' Hs; simpl.
  - done.
  - injection Hs as -> <-. rewrite Hp. constructor.
  - destruct s1 as [|c1 s1]; simpl in Hs.
    + rewrite (lang_nil_nullable r1 [] H1 eq_refl).
      apply lang_alt_r. by apply IH2.
    + injection Hs as -> <-.
      destruct (nullable r1); [apply lang_alt_l |]; constructor; auto.
  - apply lang_alt_l. by apply IH1.
  - apply lang_alt_r. by apply IH2.
  - done.
  - destruct s1 as [|c1 s1]; simpl in Hs.
    + by apply IH2.
    + injection Hs as -> <-. constructor; auto.
Qed.

Lemma lang_re_match r s : lang r s → re_match r s = true.
Proof.
  revert r. induction s as [|c s IH]; intros r Hl; simpl.
  - by eapply lang_nil_nullable.
  - rewrite (IH (deriv c r)) by (by eapply lang_deriv). apply orb_true_r.
Qed.

Lemma lang_re_match_newline r s : lang r s → re_match r (s ++ [10%N]) = true.
Proof.
  revert r. induction s as [|c s IH]; intros r Hl; simpl.
  - rewrite (lang_nil_nullable r [] Hl eq_refl). done.
  - rewrite (IH (deriv c r)) by (by eapply lang_deriv). apply orb_true_r.
Qed.

(** [re_match] accepts the words of the pattern, with or without a newline
    after them, and nothing else. *)
Lemma re_match_iff r s :
  re_match r s = true ↔ lang r s ∨ ∃ s', s = s' ++ [10%N] ∧ lang r s'.
Proof.
  split; [apply re_match_lang |].
  intros [Hl | (s' & -> & Hl)];
    [by apply lang_re_match | by apply lang_re_match_newline].
Qed.

Lemma lang_star_cls_all p s : Forall (λ c, p c = true) s → lang (Star (Cls p)) s.
Proof.
  induction 1 as [|c s Hc _ IH]; [constructor |].
  change (c :: s) with ([c] ++ s). constructor; [by constructor | done].
Qed.

(** The pattern of a name accepts exactly the non-empty texts of letters
    and white space. *)
Lemma name_pattern_iff s :
  re_match name_pattern s = true ↔
  s ≠ [] ∧ Forall (λ c, is_alpha c || is_space c = true) s.
Proof.
  split; [apply name_pattern_chars |].
  intros [Hne Hall]. apply lang_re_match.
  destruct Hall as [|c s Hc Hall]; [done |].
  change (c :: s) with ([c] ++ s). unfold name_pattern, Plus.
  constructor; [by constructor | by apply lang_star_cls_all].
Qed.

(** ** [LIKE] on a pattern without wildcards *)

Lemma like_percent p t :
  like (37%N :: p) t
  = like p t || match t with [] => false | _ :: t' => like (37%N :: p) t' end.
Proof. by destruct t. Qed.

Lemma like_trailing_percent t : like [37%N] t = true.
Proof.
  induction t as [|x t IH]; [done |].
  rewrite like_percent, IH. apply orb_true_r.
Qed.

Lemma like_plain_prefix q t :
  plain q → like (q ++ [37%N]) t = starts_with q t.
Proof.
  intros Hq. revert t. induction Hq as [|c q [H37 H95] _ IH]; intros t.
  - apply like_trailing_percent.
  - simpl. apply N.eqb_neq in H37, H95. rewrite H37, H95.
    destruct t as [|x t]; [done |]. simpl. by rewrite IH.
Qed.

Lemma like_plain_substring q t :
  plain q → like (37%N :: q ++ [37%N]) t = substring q t.
Proof.
  intros Hq. induction t as [|x t IH].
  - rewrite like_percent, like_plain_prefix by done. by destruct q.
  - rewrite like_percent, like_plain_prefix, IH by done. by destruct q.
Qed.

Lemma lower_plain q : plain q → plain (lower q).
Proof.
  unfold plain, lower. intros Hq. apply Forall_fmap.
  eapply Forall_impl; [exact Hq |]. intros c [H37 H95]. simpl.
  unfold lower_char, is_upper, in_range.
  destruct (65 <=? c)%N eqn:H1, (c <=? 90)%N eqn:H2; simpl; try done.
  apply N.leb_le in H1. lia.
Qed.

(** For a query without wildcards, [ilike] on [%query%] is the
    case-insensitive substring test. *)
Lemma ilike_plain q t :
  plain q → ilike (lit "%" ++ q ++ lit "%") t = contains_ci q t.
Proof.
  intros Hq. unfold ilike, contains_ci, lower.
  rewrite !fmap_app. apply (like_plain_substring (lower q)), lower_plain, Hq.
Qed.

(** ** Reading the table *)

Lemma head_filter_Some {A} (P : A → Prop) `{∀ x, Decision (P x)} l x :
  head (filter P l) = Some x → P x ∧ x ∈ l.
Proof.
  intros Hh. apply head_Some_elem_of in Hh.
  by apply list_elem_of_filter in Hh.
Qed.

Lemma head_filter_is_Some {A} (P : A → Prop) `{∀ x, Decision (P x)} l x :
  x ∈ l → P x → is_Some (head (filter P l)).
Proof.
  intros Hx HP. apply head_is_Some. intros Hnil.
  assert (x ∈ filter P l) as Hin by (by apply list_elem_of_filter).
  rewrite Hnil in Hin. by apply not_elem_of_nil in Hin.
Qed.

Lemma query_get_present db user :
  user ∈ db → ∃ row, query_get (User.id user) db = Some row
                     ∧ User.id row = User.id user ∧ row ∈ db.
Proof.
  intros Hin. unfold query_get.
  destruct (head_filter_is_Some (λ u, User.id u = User.id user) db user)
    as [row Hrow]; [done.. |].
  exists row. split; [done |]. by apply head_filter_Some in Hrow.
Qed.

Lemma first_by_email_present db user :
  user ∈ db → ∃ row, first_by_email (User.email user) db = Some row
                     ∧ User.email row = User.email user ∧ row ∈ db.
Proof.
  intros Hin. unfold first_by_email.
  destruct (head_filter_is_Some (λ u, User.email u = User.email user) db user)
    as [row Hrow]; [done.. |].
  exists row. split; [done |]. by apply head_filter_Some in Hrow.
Qed.

Lemma commit_row_elem u db r :
  r ∈ commit_row u db → r = u ∨ (r ∈ db ∧ User.id r ≠ User.id u).
Proof.
  unfold commit_row. intros (r0 & -> & Hin)%list_elem_of_fmap.
  case_bool_decide; auto.
Qed.

(** ** Search *)

(** For a query without wildcard characters the search returns the active
    users whose name or email contains it, compared case-insensitively. *)
Lemma search_users_plain query db u :
  plain query →
  u ∈ UserService.search_users query db ↔
  u ∈ db ∧ User.is_active u = true
  ∧ (contains_ci query (User.name u) = true
     ∨ contains_ci query (User.email u) = true).
Proof.
  intros Hq. unfold UserService.search_users.
  rewrite list_elem_of_filter, !ilike_plain by done. tauto.
Qed.

(** C7: the query [_] is no substring of Ann's name or email, and the
    search returns Ann all the same: [_] and [%] reach [LIKE] unescaped and
    act as wildcards there. *)
Theorem search_users_wildcard_query :
  UserService.search_users (lit "_") [Sample.ann] = [Sample.ann]
  ∧ User.is_active Sample.ann = true
  ∧ contains_ci (lit "_") (User.name Sample.ann) = false
  ∧ contains_ci (lit "_") (User.email Sample.ann) = false.
Proof. by vm_compute. Qed.

(** ** Soft-deleted users *)

Lemma unique_id_row (db : table) (x y : User.t) :
  NoDup (User.id <$> db) → x ∈ db → y ∈ db → User.id x = User.id y → x = y.
Proof.
  induction db as [|r db IH]; simpl; intros Hnd Hx Hy Hid.
  - by apply not_elem_of_nil in Hx.
  - apply NoDup_cons in Hnd as [Hr Hnd].
    apply elem_of_cons in Hx as [-> | Hx], Hy as [-> | Hy]; auto.
    + destruct Hr. rewrite Hid. apply list_elem_of_fmap. by exists y.
    + destruct Hr. rewrite <- Hid. apply list_elem_of_fmap. by exists x.
Qed.

(** C9: a soft-deleted user is in no result of the listing or of the
    search, while toggling the status and the permanent deletion find the
    user by id and succeed; with ids that are unique, as a primary key is,
    the toggle makes that user active again. *)
Theorem soft_deleted_hidden_but_addressable (db : table) (user : User.t) (w : ambient) :
  user ∈ db →
  User.is_active user = false →
  (user ∉ UserService.get_all_users db)
  ∧ (∀ query, user ∉ UserService.search_users query db)
  ∧ (∃ user' db',
        UserService.toggle_user_status (User.id user) w db = (Ok user', db')
        ∧ User.id user' = User.id user
        ∧ (NoDup (User.id <$> db) →
           User.is_active user' = true ∧ user' ∈ db'))
  ∧ (∃ db',
        UserService.permanently_delete_user (User.id user) db = (Ok true, db')
        ∧ user ∉ db').
Proof.
  intros Hin Hoff. repeat split.
  - unfold UserService.get_all_users. rewrite list_elem_of_filter.
    intros [Hon _]. congruence.
  - intros query. unfold UserService.search_users. rewrite list_elem_of_filter.
    intros [[_ Hon] _]. congruence.
  - destruct (query_get_present db user Hin) as (row & Hget & Hid & Hrow).
    unfold UserService.toggle_user_status. rewrite Hget.
    unfold UserMethods.update. simpl.
    eexists _, _. split; [reflexivity |]. split; [done |].
    intros Hnd. assert (row = user) as -> by by eapply unique_id_row.
    split; [simpl; by rewrite Hoff |].
    unfold commit_row. apply list_elem_of_fmap. exists user.
    split; [| done]. by rewrite bool_decide_eq_true_2.
  - destruct (query_get_present db user Hin) as (row & Hget & Hid & _).
    unfold UserService.permanently_delete_user. rewrite Hget.
    eexists. split; [reflexivity |].
    unfold UserMethods.delete. rewrite list_elem_of_filter. intros [Hne _].
    congruence.
Qed.

Lemma soft_deleted_hidden_but_addressable_witness :
  Sample.ann_deleted ∈ [Sample.ann_deleted]
  ∧ User.is_active Sample.ann_deleted = false
  ∧ (Sample.ann_deleted ∉ UserService.get_all_users [Sample.ann_deleted])
  ∧ (∀ query, Sample.ann_deleted ∉ UserService.search_users query [Sample.ann_deleted])
  ∧ (∃ user' db',
        UserService.toggle_user_status 1 (Sample.world 300) [Sample.ann_deleted]
        = (Ok user', db')
        ∧ User.id user' = 1
        ∧ (NoDup (User.id <$> [Sample.ann_deleted]) →
           User.is_active user' = true ∧ user' ∈ db'))
  ∧ (∃ db',
        UserService.permanently_delete_user 1 [Sample.ann_deleted] = (Ok true, db')
        ∧ Sample.ann_deleted ∉ db').
Proof.
  split; [apply list_elem_of_here |]. split; [reflexivity |].
  apply (soft_deleted_hidden_but_addressable [Sample.ann_deleted]
           Sample.ann_deleted (Sample.world 300)).
  - apply list_elem_of_here.
  - reflexivity.
Defined.

(** ** Authentication *)

(** The service authenticates exactly the active user with the email whose
    stored hash verifies the password. *)
Lemma authenticate_user_iff `{Platform} email password db user :
  UserService.authenticate_user email password db = Ok (Some user) ↔
  UserService.get_user_by_email email db = Some user
  ∧ auth_utils.verify_password (Str password) (Str (User.password user)) = Ok true.
Proof.
  unfold UserService.authenticate_user, UserService.get_user_by_email.
  destruct (head _) as [row|]; [| by split; [| intros []]].
  destruct (auth_utils.verify_password _ _) as [[|]|e] eqn:Hv; simpl; split;
    try done; try (intros [[= <-] Hv']; congruence).
  by intros [= <-].
Qed.

(** Every other outcome of the service is [None] or an error of the
    hashing library; no soft-deleted user is ever returned. *)
Lemma authenticate_user_active `{Platform} email password db user :
  UserService.authenticate_user email password db = Ok (Some user) →
  user ∈ db ∧ User.email user = email ∧ User.is_active user = true.
Proof.
  intros [Hget _]%authenticate_user_iff.
  apply head_filter_Some in Hget. tauto.
Qed.

(** The login route looks the user up by email alone. *)
Lemma login_ignores_is_active `{Platform} db data user password :
  subscript data "email" = Ok (JStr (User.email user)) →
  subscript data "password" = Ok (JStr password) →
  first_by_email (User.email user) db = Some user →
  auth_utils.check_password password (User.password user) = Ok true →
  auth_routes.login data db
  = {| content := Token (create_access_token (User.id user)); status := 200 |}.
Proof.
  intros He Hp Hfirst Hcheck. unfold auth_routes.login.
  rewrite He. simpl. rewrite Hfirst, Hp. simpl. by rewrite Hcheck.
Qed.

Section LoginRun.
#[local] Existing Instance Sample.platform.

(** C1: for a soft-deleted user and the right password the service
    refuses, as the claim says, while the login route issues a token. *)
Theorem login_soft_deleted_user :
  UserService.authenticate_user (lit "ann@x.com") (lit "secret1") [Sample.ann_deleted]
  = Ok None
  ∧ auth_routes.login (Sample.credentials "ann@x.com" "secret1") [Sample.ann_deleted]
    = {| content := Token (create_access_token 1); status := 200 |}
  ∧ auth_routes.login (Sample.credentials "ann@x.com" "secret2") [Sample.ann_deleted]
    = {| content := Msg "Invalid credentials"; status := 401 |}.
Proof. by vm_compute. Qed.

End LoginRun.

(** ** Registration *)

(** C2: when the email of the input is the email of a row of the table,
    active or not, the service raises "Email address already exists", the
    register route answers 409 and the create route answers 400; the table
    is left as it was. *)
Theorem duplicate_email_rejected `{Platform} (db : table) (existing : User.t)
    (w : ambient) :
  existing ∈ db →
  (∀ user_data,
      get_email user_data = Some (User.email existing) →
      UserService.create_user user_data w db
      = (Raise (ValueError "Email address already exists"), db))
  ∧ (∀ data,
      subscript data "email" = Ok (JStr (User.email existing)) →
      auth_routes.register data w db
      = ({| content := Msg "Email already exists"; status := 409 |}, db))
  ∧ (∀ json_data user_data,
      truthy json_data = true →
      UserSchema.load json_data = Ok user_data →
      get_email user_data = Some (User.email existing) →
      user_routes.create_user json_data w db
      = (failure "Email address already exists" (lit "Failed to create user") 400,
         db)).
Proof.
  intros Hin.
  destruct (first_by_email_present db existing Hin) as (row & Hrow & _).
  assert (∀ user_data,
      get_email user_data = Some (User.email existing) →
      UserService.create_user user_data w db
      = (Raise (ValueError "Email address already exists"), db)) as Hsvc.
  { intros user_data He. unfold UserService.create_user, item.
    by rewrite He, Hrow. }
  split; [exact Hsvc | split].
  - intros data He. unfold auth_routes.register.
    rewrite He. simpl. by rewrite Hrow.
  - intros json_data user_data Ht Hload He. unfold user_routes.create_user.
    by rewrite Ht, Hload, (Hsvc _ He).
Qed.

Section RegistrationRun.
#[local] Existing Instance Sample.platform.

Lemma duplicate_email_rejected_witness :
  Sample.ann_deleted ∈ [Sample.ann_deleted]
  ∧ UserService.create_user
      [kw_name (lit "Ann Other"); kw_email (lit "ann@x.com");
       kw_password (lit "secret2")]
      (Sample.world 300) [Sample.ann_deleted]
    = (Raise (ValueError "Email address already exists"), [Sample.ann_deleted])
  ∧ auth_routes.register (Sample.credentials "ann@x.com" "secret2")
      (Sample.world 300) [Sample.ann_deleted]
    = ({| content := Msg "Email already exists"; status := 409 |},
       [Sample.ann_deleted])
  ∧ user_routes.create_user
      (JDict (Sample.body (lit "Ann Other") "ann@x.com" "secret2"))
      (Sample.world 300) [Sample.ann_deleted]
    = (failure "Email address already exists" (lit "Failed to create user") 400,
       [Sample.ann_deleted]).
Proof.
  split; [apply list_elem_of_here |].
  destruct (duplicate_email_rejected [Sample.ann_deleted] Sample.ann_deleted
              (Sample.world 300)) as (Hsvc & Hreg & Hroute).
  - apply list_elem_of_here.
  - split; [| split].
    + apply Hsvc. reflexivity.
    + apply Hreg. reflexivity.
    + apply (Hroute _ [kw_name (lit "Ann Other"); kw_email (lit "ann@x.com");
                       kw_password (lit "secret2")]).
      * reflexivity.
      * by vm_compute.
      * reflexivity.
Defined.

End RegistrationRun.

(** ** Password verification *)

(** [verify_password] and [check_password] hand the encoded arguments to
    the library's check; there is no handler around the call, so an error
    of the library is the outcome of both. *)
Lemma verify_password_no_handler `{Platform} (password digest : str)
    (p h : bytes) :
  utf8_encode password = Some p →
  utf8_encode digest = Some h →
  auth_utils.verify_password (Str password) (Str digest) = bcrypt_checkpw p h
  ∧ auth_utils.check_password password digest = bcrypt_checkpw p h
  ∧ (∀ e, bcrypt_checkpw p h = Raise e →
          ¬ returns (auth_utils.verify_password (Str password) (Str digest))).
Proof.
  intros Hp Hh.
  assert (auth_utils.verify_password (Str password) (Str digest)
          = bcrypt_checkpw p h) as Hv.
  { unfold auth_utils.verify_password, auth_utils.to_bytes, auth_utils.encode.
    by rewrite Hp, Hh. }
  repeat split.
  - exact Hv.
  - unfold auth_utils.check_password, auth_utils.encode. by rewrite Hp, Hh.
  - intros e He [b Hb]. congruence.
Qed.

Section VerificationRun.
#[local] Existing Instance Sample.platform.

(** C3: on a digest that is no bcrypt encoding, [verify_password] raises
    the library's [ValueError], where its docstring promises "True if
    password matches, False otherwise"; so does [check_password]. *)
Theorem verify_password_malformed_digest :
  auth_utils.verify_password (Str (lit "secret1")) (Str (lit "not-a-digest"))
  = Raise (ValueError "Invalid salt")
  ∧ auth_utils.check_password (lit "secret1") (lit "not-a-digest")
    = Raise (ValueError "Invalid salt")
  ∧ ¬ returns (auth_utils.verify_password (Str (lit "secret1"))
                 (Str (lit "not-a-digest"))).
Proof.
  repeat split; [by vm_compute.. |]. intros [b Hb]. vm_compute in Hb. discriminate.
Qed.

End VerificationRun.

(** ** Token verification *)

(** C8, as the code has it: whichever error of the [InvalidTokenError]
    family the library raises, [decode_token] returns [None], and the guard
    answers with the one response "Invalid token". *)
Theorem decode_token_failure_is_None `{Platform} (token : str) (w : ambient)
    (e : exn) :
  jwt_decode token SECRET_KEY (utcnow w) = Raise e →
  is_InvalidTokenError e = true →
  auth_utils.decode_token token w = Ok None
  ∧ (∀ f headers auth_header,
        headers !! "Authorization" = Some auth_header →
        split 32 auth_header !! 1%nat = Some token →
        token ≠ [] →
        auth_utils.token_required f headers w
        = auth_utils.unauthenticated "Invalid token"
            (lit "Token is invalid or expired")).
Proof.
  intros Hd He.
  assert (auth_utils.decode_token token w = Ok None) as Hnone.
  { unfold auth_utils.decode_token. rewrite Hd. destruct e; done. }
  split; [exact Hnone |].
  intros f headers auth_header Hh Hs Hne. unfold auth_utils.token_required.
  rewrite Hh, Hs. destruct token; [done |]. by rewrite Hnone.
Qed.

Section TokenRun.
#[local] Existing Instance Sample.platform.

Lemma decode_token_failure_is_None_witness :
  jwt_decode Sample.expired_token SECRET_KEY (utcnow (Sample.world 100))
  = Raise ExpiredSignatureError
  ∧ is_InvalidTokenError ExpiredSignatureError = true
  ∧ auth_utils.decode_token Sample.expired_token (Sample.world 100) = Ok None
  ∧ (∀ f headers auth_header,
        headers !! "Authorization" = Some auth_header →
        split 32 auth_header !! 1%nat = Some Sample.expired_token →
        Sample.expired_token ≠ [] →
        auth_utils.token_required f headers (Sample.world 100)
        = auth_utils.unauthenticated "Invalid token"
            (lit "Token is invalid or expired")).
Proof.
  split; [reflexivity |]. split; [reflexivity |].
  apply (decode_token_failure_is_None Sample.expired_token (Sample.world 100)
           ExpiredSignatureError); reflexivity.
Defined.

(** C8, as stated, fails: the library tells an expired token from a forged
    one, and the results of [decode_token] and of the guard do not. *)
Lemma decode_token_expired_like_forged :
  jwt_decode Sample.expired_token SECRET_KEY 100 = Raise ExpiredSignatureError
  ∧ jwt_decode Sample.forged_token SECRET_KEY 100 = Raise InvalidSignatureError
  ∧ auth_utils.decode_token Sample.expired_token (Sample.world 100)
    = auth_utils.decode_token Sample.forged_token (Sample.world 100)
  ∧ (∀ f,
        auth_utils.token_required f
          {[ "Authorization" := lit "Bearer " ++ Sample.expired_token ]} (Sample.world 100)
        = auth_utils.token_required f
            {[ "Authorization" := lit "Bearer " ++ Sample.forged_token ]} (Sample.world 100)).
Proof. repeat split. Qed.

End TokenRun.

(** ** Updates *)

Lemma contains_cons k kw d :
  contains k (kw :: d) = false → key kw ≠ k ∧ contains k d = false.
Proof.
  unfold contains. rewrite !bool_decide_eq_false, fmap_cons, elem_of_cons.
  intros Hn. split; [intros <-; apply Hn; by left | intros Hd; apply Hn; by right].
Qed.

Lemma contains_set_password k h d : contains k (set_password h d) = contains k d.
Proof.
  unfold contains, set_password. rewrite <- list_fmap_compose.
  assert (key ∘ (λ kw, match kw with kw_password _ => kw_password h | _ => kw end)
          <$> d = key <$> d) as ->; [| done].
  apply list_fmap_ext. by intros _ [] _.
Qed.

(** The loop of [User.update] leaves the key of the row alone, and every
    column for which the dictionary has no entry. *)
Lemma update_loop_frame kwargs self :
  let self' :=
    foldl (λ self kw,
             if User.hasattr kw && negb (bool_decide (key kw = "id"))
             then User.setattr self kw else self) self kwargs in
  User.id self' = User.id self
  ∧ (contains "name" kwargs = false → User.name self' = User.name self)
  ∧ (contains "email" kwargs = false → User.email self' = User.email self)
  ∧ (contains "age" kwargs = false → User.age self' = User.age self)
  ∧ (contains "password" kwargs = false → User.password self' = User.password self)
  ∧ (contains "created_at" kwargs = false →
     User.created_at self' = User.created_at self)
  ∧ (contains "updated_at" kwargs = false →
     User.updated_at self' = User.updated_at self)
  ∧ (contains "is_active" kwargs = false →
     User.is_active self' = User.is_active self).
Proof.
  revert self. induction kwargs as [|kw kwargs IH]; intros self; simpl.
  - done.
  - specialize (IH (if User.hasattr kw && negb (bool_decide (key kw = "id"))
                    then User.setattr self kw else self)).
    simpl in IH. destruct IH as (Hid & Hn & He & Ha & Hp & Hc & Hu & Hi).
    repeat split.
    + rewrite Hid. by destruct kw.
    + intros [Hk Hd]%contains_cons. rewrite (Hn Hd). by destruct kw.
    + intros [Hk Hd]%contains_cons. rewrite (He Hd). by destruct kw.
    + intros [Hk Hd]%contains_cons. rewrite (Ha Hd). by destruct kw.
    + intros [Hk Hd]%contains_cons. rewrite (Hp Hd). by destruct kw.
    + intros [Hk Hd]%contains_cons. rewrite (Hc Hd). by destruct kw.
    + intros [Hk Hd]%contains_cons. rewrite (Hu Hd). by destruct kw.
    + intros [Hk Hd]%contains_cons. rewrite (Hi Hd). by destruct kw.
Qed.

Lemma contains_false k d : k ∉ key <$> d → contains k d = false.
Proof. intros Hk. unfold contains. by apply bool_decide_eq_false_2. Qed.

(** With one entry per key, the loop leaves every attribute it was given
    at the value it was given. *)
Lemma update_loop_sets kwargs self kw :
  NoDup (key <$> kwargs) → kw ∈ kwargs →
  User.hasattr kw = true → key kw ≠ "id" →
  let self' :=
    foldl (λ self kw,
             if User.hasattr kw && negb (bool_decide (key kw = "id"))
             then User.setattr self kw else self) self kwargs in
  User.setattr self' kw = self'.
Proof.
  intros Hnd Hin Hattr Hid. revert self Hnd Hin.
  induction kwargs as [|k0 kwargs IH]; intros self Hnd Hin; simpl.
  - by apply not_elem_of_nil in Hin.
  - rewrite fmap_cons in Hnd. apply NoDup_cons in Hnd as [Hk0 Hnd].
    apply elem_of_cons in Hin as [<- | Hin]; [| by apply IH].
    rewrite Hattr, bool_decide_eq_false_2 by done. simpl.
    destruct (update_loop_frame kwargs (User.setattr self kw))
      as (_ & Hn & He & Ha & Hp & Hc & Hu & Hi).
    apply contains_false in Hk0.
    destruct (foldl _ _ kwargs) as [i n e a p c u act] eqn:Hfold.
    clear IH. destruct kw; simpl in *; try done; f_equal; symmetry; auto.
Qed.

(** [User.update] writes what it is given, [updated_at] apart, which it
    stamps itself. *)
Lemma update_sets_supplied self kwargs w db kw :
  NoDup (key <$> kwargs) → kw ∈ kwargs →
  User.hasattr kw = true → key kw ≠ "id" → key kw ≠ "updated_at" →
  User.setattr (UserMethods.update self kwargs w db).1 kw
  = (UserMethods.update self kwargs w db).1.
Proof.
  intros Hnd Hin Hattr Hid Hup. unfold UserMethods.update. cbn [fst].
  pose proof (update_loop_sets kwargs self kw Hnd Hin Hattr Hid) as Hset.
  cbv zeta in Hset. destruct (foldl _ _ kwargs) as [i n e a p c u act].
  destruct kw; simpl in *; try done; by injection Hset as ->.
Qed.

Lemma commit_row_other u db (i : nat) r :
  db !! i = Some r → User.id r ≠ User.id u → commit_row u db !! i = Some r.
Proof.
  intros Hi Hne. unfold commit_row. rewrite list_lookup_fmap, Hi. simpl.
  by rewrite bool_decide_eq_false_2.
Qed.

(** C5, as the code has it: an update of an existing active user either
    fails and leaves the table as it was, or changes, in the one row with
    that id, at most the columns named in the dictionary, and stamps
    [updated_at] with the reading of the clock; the stamp is later than
    the stored one when the clock has moved on. *)
Theorem update_user_frame `{Platform} (user_id : Z) (update_data : dict)
    (w : ambient) (db : table) (user : User.t) :
  UserService.get_user_by_id user_id db = Some user →
  (∃ e, UserService.update_user user_id update_data w db = (Raise e, db))
  ∨ (∃ user',
        UserService.update_user user_id update_data w db
        = (Ok user', commit_row user' db)
        ∧ User.id user' = user_id
        ∧ (∀ (i : nat) r, db !! i = Some r → User.id r ≠ user_id →
                          commit_row user' db !! i = Some r)
        ∧ (contains "name" update_data = false → User.name user' = User.name user)
        ∧ (contains "email" update_data = false →
           User.email user' = User.email user)
        ∧ (contains "age" update_data = false → User.age user' = User.age user)
        ∧ (contains "password" update_data = false →
           User.password user' = User.password user)
        ∧ (contains "is_active" update_data = false →
           User.is_active user' = User.is_active user)
        ∧ (contains "created_at" update_data = false →
           User.created_at user' = User.created_at user)
        ∧ User.updated_at user' = utcnow w
        ∧ (User.updated_at user < utcnow w →
           User.updated_at user < User.updated_at user')).
Proof.
  intros Hget. unfold UserService.update_user. rewrite Hget.
  apply head_filter_Some in Hget as [[Hid _] _].
  match goal with |- context [if ?b then _ else _] => destruct b end;
    [left; by eexists |].
  assert (∃ d, (match get_password update_data with
                | Some password =>
                    h ← auth_utils.hash_password password w;
                    Ok (set_password h update_data)
                | None => Ok update_data
                end = Ok d ∧ ∀ k, contains k d = contains k update_data)
               ∨ ∃ e, match get_password update_data with
                      | Some password =>
                          h ← auth_utils.hash_password password w;
                          Ok (set_password h update_data)
                      | None => Ok update_data
                      end = Raise e) as (d & [[-> Hkeys] | [e ->]]).
  { destruct (get_password update_data) as [password|].
    - destruct (auth_utils.hash_password password w) as [h|e]; simpl.
      + exists (set_password h update_data). left.
        split; [done |]. intros k. apply contains_set_password.
      + exists []. right. by exists e.
    - exists update_data. by left. }
  2: { left. by eexists. }
  right. unfold UserMethods.update.
  destruct (update_loop_frame d user) as (Hi & Hn & He & Ha & Hp & Hc & Hu & Hact).
  eexists. split; [reflexivity |]. simpl.
  repeat split.
  - by rewrite Hi.
  - intros i r Hr Hne. apply commit_row_other; [done |]. simpl. by rewrite Hi, Hid.
  - rewrite <- (Hkeys "name"). exact Hn.
  - rewrite <- (Hkeys "email"). exact He.
  - rewrite <- (Hkeys "age"). exact Ha.
  - rewrite <- (Hkeys "password"). exact Hp.
  - rewrite <- (Hkeys "is_active"). exact Hact.
  - rewrite <- (Hkeys "created_at"). exact Hc.
  - done.
Qed.

Lemma head_filter_None {A} (P : A → Prop) `{∀ x, Decision (P x)} l :
  (∀ x, x ∈ l → ¬ P x) → head (filter P l) = None.
Proof.
  intros Hall. destruct (head (filter P l)) as [x|] eqn:Hh; [| done].
  apply head_filter_Some in Hh as [HP Hin]. by destruct (Hall x Hin).
Qed.

Section UpdateRun.
#[local] Existing Instance Sample.platform.

Lemma update_user_frame_witness :
  UserService.get_user_by_id 1 [Sample.ann] = Some Sample.ann
  ∧ ∃ user',
      UserService.update_user 1 [kw_name (lit "Ann Smith")] (Sample.world 300)
        [Sample.ann]
      = (Ok user', [user'])
      ∧ User.email user' = User.email Sample.ann
      ∧ User.password user' = User.password Sample.ann
      ∧ User.is_active user' = User.is_active Sample.ann
      ∧ User.updated_at Sample.ann < User.updated_at user'.
Proof.
  split; [reflexivity |].
  destruct (update_user_frame 1 [kw_name (lit "Ann Smith")] (Sample.world 300)
              [Sample.ann] Sample.ann)
    as [[e He] | (user' & Hrun & _ & _ & _ & He & _ & Hp & Ha & _ & _ & Hlt)].
  - reflexivity.
  - vm_compute in He. discriminate He.
  - exists user'. split; [| repeat split].
    + rewrite Hrun. f_equal. vm_compute in Hrun. by injection Hrun as <-.
    + by apply He.
    + by apply Hp.
    + by apply Ha.
    + by apply Hlt.
Defined.

(** C5, as stated, fails: an update made at the clock reading that the row
    already carries leaves [updated_at] where it was. *)
Lemma update_user_same_clock_reading :
  ∃ user',
    UserService.update_user 1 [kw_name (lit "Ann Smith")] (Sample.world 100)
      [Sample.ann]
    = (Ok user', [user'])
    ∧ User.name user' = lit "Ann Smith"
    ∧ ¬ (User.updated_at Sample.ann < User.updated_at user').
Proof. eexists. repeat split. by vm_compute. Qed.

End UpdateRun.

(** C10: the update schema loads [is_active], and a PUT whose body is
    [{is_active: false}] answers 200 and leaves the user inactive, his
    other columns as they were, and out of reach of [get_user_by_id]. *)
Theorem update_route_deactivates `{Platform} (user_id : Z) (w : ambient)
    (db : table) (user : User.t) :
  UserService.get_user_by_id user_id db = Some user →
  UserUpdateSchema.load (JDict {[ "is_active" := JBool false ]})
  = Ok [kw_is_active false]
  ∧ ∃ user',
      user_routes.update_user user_id (JDict {[ "is_active" := JBool false ]}) w db
      = (reply (Some (One (UserSchema.dump user'))) None
           (lit "User updated successfully") 200,
         commit_row user' db)
      ∧ user' ∈ commit_row user' db
      ∧ User.id user' = user_id
      ∧ User.is_active user' = false
      ∧ User.name user' = User.name user
      ∧ User.email user' = User.email user
      ∧ User.age user' = User.age user
      ∧ User.password user' = User.password user
      ∧ UserService.get_user_by_id user_id (commit_row user' db) = None.
Proof.
  intros Hget.
  assert (UserUpdateSchema.load (JDict {[ "is_active" := JBool false ]})
          = Ok [kw_is_active false]) as Hload by (by vm_compute).
  split; [exact Hload |].
  unfold user_routes.update_user. rewrite Hget, Hload.
  change (truthy (JDict {[ "is_active" := JBool false ]})) with true.
  cbn [negb]. unfold UserService.update_user. rewrite Hget.
  cbn [get_email get_password omap head option_list].
  apply head_filter_Some in Hget as [[Hid Hon] Hin].
  exists (User.setattr (User.setattr user (kw_is_active false))
            (kw_updated_at (utcnow w))).
  split; [reflexivity |].
  split.
  { unfold commit_row. apply list_elem_of_fmap. exists user.
    split; [| done]. by rewrite bool_decide_eq_true_2. }
  do 6 (split; [done |]).
  apply head_filter_None. intros r Hr [Hrid Hract].
  apply commit_row_elem in Hr as [-> | [_ Hne]]; simpl in *; congruence.
Qed.

Section DeactivationRun.
#[local] Existing Instance Sample.platform.

Lemma update_route_deactivates_witness :
  UserService.get_user_by_id 1 [Sample.ann] = Some Sample.ann
  ∧ ∃ user',
      user_routes.update_user 1 (JDict {[ "is_active" := JBool false ]})
        (Sample.world 300) [Sample.ann]
      = (reply (Some (One (UserSchema.dump user'))) None
           (lit "User updated successfully") 200,
         [user'])
      ∧ User.is_active user' = false
      ∧ UserService.get_user_by_id 1 [user'] = None.
Proof.
  split; [reflexivity |].
  destruct (update_route_deactivates 1 (Sample.world 300) [Sample.ann] Sample.ann)
    as (_ & user' & Hrun & _ & Hid & Hoff & _ & _ & _ & _ & Hgone).
  - reflexivity.
  - exists user'. split; [| split].
    + rewrite Hrun. f_equal. unfold commit_row. cbn [fmap list_fmap].
      by rewrite Hid.
    + exact Hoff.
    + unfold commit_row in Hgone. cbn [fmap list_fmap] in Hgone.
      by rewrite Hid in Hgone.
Defined.

End DeactivationRun.

(** ** Loading a schema *)

Lemma field_messages_lookup_Some fields m k msgs :
  field_messages fields m !! k = Some msgs →
  ∃ f, (k, f) ∈ fields ∧ f (m !! k) = inl msgs.
Proof.
  induction fields as [|[k0 f0] fields IH]; simpl.
  - by rewrite lookup_empty.
  - destruct (f0 (m !! k0)) as [msgs0|kws] eqn:Hf0.
    + destruct (decide (k0 = k)) as [->|Hne].
      * rewrite lookup_insert_eq. intros [= <-]. exists f0.
        split; [apply list_elem_of_here | done].
      * rewrite lookup_insert_ne by done. intros Hl.
        destruct (IH Hl) as (f & Hin & Hf). exists f.
        split; [by apply list_elem_of_further | done].
    + intros Hl. destruct (IH Hl) as (f & Hin & Hf). exists f.
      split; [by apply list_elem_of_further | done].
Qed.

Lemma field_messages_rejected fields m k f msgs :
  NoDup fields.*1 → (k, f) ∈ fields → f (m !! k) = inl msgs →
  field_messages fields m !! k = Some msgs.
Proof.
  induction fields as [|[k0 f0] fields IH]; simpl; intros Hnd Hin Hf.
  - by apply not_elem_of_nil in Hin.
  - apply NoDup_cons in Hnd as [Hk0 Hnd].
    apply elem_of_cons in Hin as [[= <- <-] | Hin].
    + rewrite Hf. apply lookup_insert_eq.
    + assert (k0 ≠ k) as Hne.
      { intros ->. apply Hk0. apply list_elem_of_fmap. by exists (k, f). }
      destruct (f0 (m !! k0)); [rewrite lookup_insert_ne by done |]; auto.
Qed.

Lemma field_messages_accepted fields m :
  field_messages fields m = ∅ →
  ∀ k f, (k, f) ∈ fields → ∃ kws, f (m !! k) = inr kws.
Proof.
  induction fields as [|[k0 f0] fields IH]; simpl; intros He k f Hin.
  - by apply not_elem_of_nil in Hin.
  - destruct (f0 (m !! k0)) as [msgs0|kws] eqn:Hf0.
    + by apply insert_non_empty in He.
    + apply elem_of_cons in Hin as [[= -> ->] | Hin]; eauto.
Qed.

Lemma unknown_fields_declared fields m k :
  k ∈ fields.*1 → unknown_fields fields m !! k = None.
Proof.
  intros Hk. unfold unknown_fields. rewrite lookup_fmap.
  destruct (filter _ m !! k) as [v|] eqn:Hl; [| done].
  apply map_lookup_filter_Some in Hl as [_ Hn]. by destruct Hn.
Qed.

Lemma Schema_load_rejected fields post_load m :
  field_messages fields m ∪ unknown_fields fields m ≠ ∅ →
  Schema_load fields post_load (JDict m)
  = Raise (ValidationError (field_messages fields m ∪ unknown_fields fields m)).
Proof. intros Hne. simpl. by rewrite bool_decide_eq_false_2. Qed.

Lemma Schema_load_accepted fields post_load m :
  field_messages fields m ∪ unknown_fields fields m = ∅ →
  Schema_load fields post_load (JDict m) = post_load (field_values fields m).
Proof. intros He. simpl. by rewrite bool_decide_eq_true_2. Qed.

Lemma validate_email_format_raises data errs :
  validate_email_format data = Raise (ValidationError errs) →
  errs = {[ "email" := ["Invalid email format"] ]}.
Proof.
  unfold validate_email_format.
  destruct (get_email data) as [email|]; [| done].
  destruct (_ && _); congruence.
Qed.

Lemma get_email_app d1 d2 :
  get_email (d1 ++ d2)
  = match get_email d1 with Some e => Some e | None => get_email d2 end.
Proof.
  unfold get_email. rewrite omap_app.
  by destruct (omap _ d1).
Qed.

(** ** Fields *)

Lemma load_field_rejects {A} (f : field A) v x check :
  v ≠ JNull → deserialize f v = Some x → check ∈ validate f →
  is_Some (check x) → ∃ msgs, load_field f (Some v) = Errors msgs.
Proof.
  intros Hv Hx Hin [msg Hmsg]. unfold load_field. rewrite Hx.
  destruct (omap (λ check, check x) (validate f)) as [|msg0 msgs] eqn:Ho.
  - assert (msg ∈ omap (λ check, check x) (validate f)) as Hm.
    { apply list_elem_of_omap. by exists check. }
    rewrite Ho in Hm. by apply not_elem_of_nil in Hm.
  - destruct v; try done; by eexists.
Qed.

Lemma load_field_invalid {A} (f : field A) v :
  v ≠ JNull → deserialize f v = None →
  load_field f (Some v) = Errors [msg_invalid f v].
Proof. intros Hv Hd. unfold load_field. rewrite Hd. by destruct v. Qed.

Lemma Length_between lo hi s :
  validate_.Length (Some lo) (Some hi) s = None →
  (lo ≤ length s ∧ length s ≤ hi)%nat.
Proof.
  unfold validate_.Length. simpl.
  repeat case_bool_decide; simpl; try done. intros _. lia.
Qed.

Lemma Length_at_most hi s :
  validate_.Length None (Some hi) s = None → (length s ≤ hi)%nat.
Proof.
  unfold validate_.Length. simpl.
  case_bool_decide; simpl; try done. intros _. lia.
Qed.

Lemma Range_between lo hi z :
  validate_.Range lo hi z = None → lo ≤ z ∧ z ≤ hi.
Proof.
  unfold validate_.Range.
  destruct (z <? lo) eqn:H1, (hi <? z) eqn:H2; simpl; try done.
  intros _. apply Z.ltb_ge in H1, H2. lia.
Qed.

Lemma not_None_is_Some {A} (o : option A) : o ≠ None → is_Some o.
Proof. destruct o; [by eexists | done]. Qed.

Section FieldRules.
Context `{Platform}.

Lemma name_violation_rejected raw :
  name_violation raw →
  ∃ msgs, declare UserSchema.name (fmap kw_name) raw = inl msgs.
Proof.
  intros Hv. unfold declare.
  enough (∃ msgs, load_field UserSchema.name raw = Errors msgs) as [msgs ->]
    by by eexists.
  destruct raw as [v|]; [| by eexists].
  destruct v as [| | | |s| |]; try by eexists.
  destruct (validate_.Length (Some 2%nat) (Some 100%nat) s) as [msg|] eqn:Hlen.
  - apply (load_field_rejects UserSchema.name (JStr s) s
             (validate_.Length (Some 2%nat) (Some 100%nat)));
      [done | done | apply list_elem_of_here | by rewrite Hlen].
  - apply Length_between in Hlen.
    destruct Hv as [Hv | [Hv | (c & Hc & Ha & Hs)]]; [lia.. |].
    apply (load_field_rejects UserSchema.name (JStr s) s
             (validate_.Regexp name_pattern
                "Name can only contain letters and spaces"));
      [done | done | apply list_elem_of_further, list_elem_of_here |].
    unfold validate_.Regexp.
    destruct (re_match name_pattern s) eqn:Hm; [| by eexists].
    apply name_pattern_chars in Hm as [_ Hall].
    rewrite Forall_forall in Hall. specialize (Hall c Hc).
    by rewrite Ha, Hs in Hall.
Qed.

Lemma password_violation_rejected raw :
  password_violation raw →
  ∃ msgs, declare UserSchema.password (fmap kw_password) raw = inl msgs.
Proof.
  intros Hv. unfold declare.
  enough (∃ msgs, load_field UserSchema.password raw = Errors msgs) as [msgs ->]
    by by eexists.
  destruct raw as [v|]; [| by eexists].
  destruct v as [| | | |s| |]; try by eexists.
  apply (load_field_rejects UserSchema.password (JStr s) s
           (validate_.Length (Some 6%nat) (Some 128%nat)));
    [done | done | apply list_elem_of_here |].
  apply not_None_is_Some. intros Hlen%Length_between.
  simpl in Hv. lia.
Qed.

Lemma age_violation_rejected raw :
  age_violation raw →
  ∃ msgs, declare UserSchema.age (λ v, Some (kw_age v)) raw = inl msgs.
Proof.
  intros Hv. unfold declare.
  enough (∃ msgs, load_field UserSchema.age raw = Errors msgs) as [msgs ->]
    by by eexists.
  destruct raw as [v|]; [| done].
  assert (v ≠ JNull) as Hnull by (by intros ->).
  assert (∀ z, fields.Int_deserialize v = Some z → z < 1 ∨ 150 < z) as Hz
    by (by destruct v).
  destruct (fields.Int_deserialize v) as [z|] eqn:Hd.
  - apply (load_field_rejects UserSchema.age v z (validate_.Range 1 150));
      [done | done | apply list_elem_of_here |].
    apply not_None_is_Some. intros Hr%Range_between.
    destruct (Hz z eq_refl); lia.
  - eexists. by apply (load_field_invalid UserSchema.age).
Qed.

(** The field-level part of the e-mail rule. *)
Lemma email_violation_rejected raw :
  match raw with
  | Some (JStr s) => email_validator s = false ∨ (120 < length s)%nat
  | _ => True
  end →
  ∃ msgs, declare UserSchema.email (fmap kw_email) raw = inl msgs.
Proof.
  intros Hv. unfold declare.
  enough (∃ msgs, load_field UserSchema.email raw = Errors msgs) as [msgs ->]
    by by eexists.
  destruct raw as [v|]; [| by eexists].
  destruct v as [| | | |s| |]; try by eexists.
  destruct Hv as [Hv | Hv].
  - apply (load_field_rejects UserSchema.email (JStr s) s
             (λ value, if email_validator value then None
                       else Some "Not a valid email address."));
      [done | done | apply list_elem_of_here |].
    simpl. rewrite Hv. by eexists.
  - apply (load_field_rejects UserSchema.email (JStr s) s
             (validate_.Length None (Some 120%nat)));
      [done | done | apply list_elem_of_further, list_elem_of_here |].
    apply not_None_is_Some. intros Hlen%Length_at_most. lia.
Qed.

End FieldRules.

Lemma declare_no_email {A} (f : field A) entry raw :
  (∀ v e, entry v ≠ Some (kw_email e)) →
  get_email (match declare f entry raw with inl _ => [] | inr kws => kws end)
  = None.
Proof.
  intros Hentry. unfold declare. destruct (load_field f raw) as [|msgs|v]; try done.
  specialize (Hentry v). destruct (entry v) as [[]|]; try done.
  by destruct (Hentry v0).
Qed.

Lemma declare_email_text (f : field str) s kws :
  deserialize f (JStr s) = Some s →
  declare f (fmap kw_email) (Some (JStr s)) = inr kws → kws = [kw_email s].
Proof.
  intros Hd. unfold declare, load_field. rewrite Hd.
  destruct (omap _ _); [| done]. by intros [= <-].
Qed.

(** The messages of an e-mail field are never the message of the hook. *)
Lemma email_field_messages `{Platform} required extra msg_required raw msgs :
  (∀ s msg, extra s = Some msg → msg ≠ "Invalid email format") →
  msg_required ≠ "Invalid email format" →
  declare (fields.Email required [extra] msg_required) (fmap kw_email) raw
  = inl msgs →
  msgs ≠ ["Invalid email format"].
Proof.
  intros Hextra Hreq. unfold declare, load_field.
  destruct raw as [v|].
  - destruct v as [| | | |s| |]; simpl; try (intros [= <-]; by intros [=]).
    destruct (email_validator s); simpl.
    + destruct (extra s) as [msg|] eqn:He; simpl; [| done].
      intros [= <-] [= ->]. by destruct (Hextra s _ He).
    + destruct (extra s); simpl; intros [= <-]; by intros [=].
  - simpl. destruct required; [| done]. intros [= <-] [= ->]. done.
Qed.

Lemma Length_message_not_format hi s msg :
  validate_.Length None (Some hi) s = Some msg → msg ≠ "Invalid email format".
Proof.
  unfold validate_.Length. simpl. case_bool_decide; simpl; [| done].
  intros [= <-] Heq. apply (f_equal (λ x, String.get 0 x)) in Heq.
  by vm_compute in Heq.
Qed.

(** What the two schemas have in common. *)
Lemma Schema_load_gathers (fields : list (string * declared))
    (m : gmap string json) :
  NoDup fields.*1 →
  (∀ f msgs, ("email", f) ∈ fields → f (m !! "email") = inl msgs →
             msgs ≠ ["Invalid email format"]) →
  (∀ e, m !! "email" = Some (JStr e) →
        (∀ k f, (k, f) ∈ fields → ∃ kws, f (m !! k) = inr kws) →
        get_email (field_values fields m) = Some e) →
  (∀ k f msgs,
      (k, f) ∈ fields → f (m !! k) = inl msgs →
      ∃ errs,
        Schema_load fields validate_email_format (JDict m)
        = Raise (ValidationError errs)
        ∧ (∀ k' f' msgs', (k', f') ∈ fields → f' (m !! k') = inl msgs' →
                           errs !! k' = Some msgs')
        ∧ errs !! "email" ≠ Some ["Invalid email format"])
  ∧ (∀ e,
      m !! "email" = Some (JStr e) → e ≠ [] →
      re_match email_pattern e = false →
      (∀ k f, (k, f) ∈ fields → ∃ kws, f (m !! k) = inr kws) →
      unknown_fields fields m = ∅ →
      Schema_load fields validate_email_format (JDict m)
      = Raise (ValidationError {[ "email" := ["Invalid email format"] ]})).
Proof.
  intros Hnd Hmsg Hval. split.
  - intros k f msgs Hin Hf.
    exists (field_messages fields m ∪ unknown_fields fields m).
    assert (∀ k' f' msgs', (k', f') ∈ fields → f' (m !! k') = inl msgs' →
              (field_messages fields m ∪ unknown_fields fields m) !! k'
              = Some msgs') as Hall.
    { intros k' f' msgs' Hin' Hf'. apply lookup_union_Some_l.
      by eapply field_messages_rejected. }
    split; [| split; [exact Hall |]].
    + apply Schema_load_rejected. intros He.
      specialize (Hall _ _ _ Hin Hf). by rewrite He, lookup_empty in Hall.
    + intros Hl. apply lookup_union_Some_raw in Hl as [Hl | [_ Hl]].
      * apply field_messages_lookup_Some in Hl as (f' & Hin' & Hf').
        by eapply Hmsg.
      * apply lookup_fmap_Some in Hl as (? & [= ?] & _).
  - intros e He Hne Hre Hacc Hunk.
    rewrite Schema_load_accepted.
    + unfold validate_email_format. rewrite (Hval e He Hacc).
      by rewrite Hre, bool_decide_eq_false_2.
    + rewrite Hunk, (right_id_L ∅ (∪)).
      apply map_eq. intros k. rewrite lookup_empty.
      destruct (field_messages fields m !! k) as [msgs|] eqn:Hl; [| done].
      apply field_messages_lookup_Some in Hl as (f & Hin & Hf).
      destruct (Hacc _ _ Hin) as [kws Hk]. congruence.
Qed.

Section Schemas.
Context `{Platform}.

Lemma UserSchema_keys : NoDup UserSchema.load_fields.*1.
Proof. apply (bool_decide_unpack _). by vm_compute. Qed.

Lemma UserUpdateSchema_keys : NoDup UserUpdateSchema.load_fields.*1.
Proof. apply (bool_decide_unpack _). by vm_compute. Qed.

Lemma UserSchema_email_messages (m : gmap string json) f msgs :
  ("email", f) ∈ UserSchema.load_fields → f (m !! "email") = inl msgs →
  msgs ≠ ["Invalid email format"].
Proof.
  unfold UserSchema.load_fields. rewrite !elem_of_cons, elem_of_nil.
  intros [[=] | [[= ->] | [[=] | [[=] | []]]]].
  apply email_field_messages; [| done].
  intros s msg. apply Length_message_not_format.
Qed.

Lemma UserUpdateSchema_email_messages (m : gmap string json) f msgs :
  ("email", f) ∈ UserUpdateSchema.load_fields → f (m !! "email") = inl msgs →
  msgs ≠ ["Invalid email format"].
Proof.
  unfold UserUpdateSchema.load_fields. rewrite !elem_of_cons, elem_of_nil.
  intros [[=] | [[= ->] | [[=] | [[=] | [[=] | []]]]]].
  apply email_field_messages; [| done].
  intros s msg. apply Length_message_not_format.
Qed.

Lemma UserSchema_values_email (m : gmap string json) e :
  m !! "email" = Some (JStr e) →
  (∀ k f, (k, f) ∈ UserSchema.load_fields → ∃ kws, f (m !! k) = inr kws) →
  get_email (field_values UserSchema.load_fields m) = Some e.
Proof.
  intros He Hacc.
  destruct (Hacc "email" (declare UserSchema.email (fmap kw_email)))
    as [kws Hk]; [apply list_elem_of_further, list_elem_of_here |].
  cbn [field_values flat_map UserSchema.load_fields].
  rewrite get_email_app, declare_no_email by (by intros []).
  rewrite Hk. rewrite He in Hk. by apply declare_email_text in Hk as ->.
Qed.

Lemma UserUpdateSchema_values_email (m : gmap string json) e :
  m !! "email" = Some (JStr e) →
  (∀ k f, (k, f) ∈ UserUpdateSchema.load_fields → ∃ kws, f (m !! k) = inr kws) →
  get_email (field_values UserUpdateSchema.load_fields m) = Some e.
Proof.
  intros He Hacc.
  destruct (Hacc "email" (declare UserUpdateSchema.email (fmap kw_email)))
    as [kws Hk]; [apply list_elem_of_further, list_elem_of_here |].
  cbn [field_values flat_map UserUpdateSchema.load_fields].
  rewrite get_email_app, declare_no_email by (by intros []).
  rewrite Hk. rewrite He in Hk. by apply declare_email_text in Hk as ->.
Qed.

End Schemas.

(** C6, as the code has it: for the create schema and for the update
    schema, when a declared field is rejected the load fails with one
    dictionary that holds the messages of every rejected field, and that
    dictionary never carries the message of the explicit pattern; the
    pattern is tried only on input whose fields were all accepted, and its
    failure is then reported as the one entry [email]. *)
Theorem load_gathers_field_errors `{Platform} (fields : list (string * declared))
    (m : gmap string json) :
  fields = UserSchema.load_fields ∨ fields = UserUpdateSchema.load_fields →
  (∀ k f msgs,
      (k, f) ∈ fields → f (m !! k) = inl msgs →
      ∃ errs,
        Schema_load fields validate_email_format (JDict m)
        = Raise (ValidationError errs)
        ∧ (∀ k' f' msgs', (k', f') ∈ fields → f' (m !! k') = inl msgs' →
                           errs !! k' = Some msgs')
        ∧ errs !! "email" ≠ Some ["Invalid email format"])
  ∧ (∀ e,
      m !! "email" = Some (JStr e) → e ≠ [] →
      re_match email_pattern e = false →
      (∀ k f, (k, f) ∈ fields → ∃ kws, f (m !! k) = inr kws) →
      unknown_fields fields m = ∅ →
      Schema_load fields validate_email_format (JDict m)
      = Raise (ValidationError {[ "email" := ["Invalid email format"] ]})).
Proof.
  intros [-> | ->]; apply Schema_load_gathers.
  - apply UserSchema_keys.
  - apply UserSchema_email_messages.
  - apply UserSchema_values_email.
  - apply UserUpdateSchema_keys.
  - apply UserUpdateSchema_email_messages.
  - apply UserUpdateSchema_values_email.
Qed.

Section LoadRun.
#[local] Existing Instance Sample.platform.

Lemma load_gathers_field_errors_witness :
  (UserSchema.load_fields = UserSchema.load_fields
   ∨ UserSchema.load_fields = UserUpdateSchema.load_fields)
  ∧ (∃ errs,
        UserSchema.load (JDict (Sample.body (lit "A") "ann@x.com" "abc"))
        = Raise (ValidationError errs)
        ∧ errs !! "name" = Some ["Length must be between 2 and 100."]
        ∧ errs !! "password" = Some ["Length must be between 6 and 128."])
  ∧ UserSchema.load (JDict (Sample.body (lit "Ann Lee") "a!b@example.com" "secret1"))
    = Raise (ValidationError {[ "email" := ["Invalid email format"] ]}).
Proof.
  split; [by left |]. split.
  - destruct (load_gathers_field_errors UserSchema.load_fields
                (Sample.body (lit "A") "ann@x.com" "abc") (or_introl eq_refl))
      as [Hrejected _].
    destruct (Hrejected "name" (declare UserSchema.name (fmap kw_name))
                ["Length must be between 2 and 100."])
      as (errs & Hload & Hall & _).
    + apply list_elem_of_here.
    + by vm_compute.
    + exists errs. split; [exact Hload | split].
      * apply (Hall "name" (declare UserSchema.name (fmap kw_name)));
          [apply list_elem_of_here | by vm_compute].
      * apply (Hall "password" (declare UserSchema.password (fmap kw_password)));
          [do 3 apply list_elem_of_further; apply list_elem_of_here
          | by vm_compute].
  - destruct (load_gathers_field_errors UserSchema.load_fields
                (Sample.body (lit "Ann Lee") "a!b@example.com" "secret1")
                (or_introl eq_refl))
      as [_ Hhook].
    apply (Hhook (lit "a!b@example.com")).
    + reflexivity.
    + done.
    + by vm_compute.
    + intros k f. unfold UserSchema.load_fields.
      rewrite !elem_of_cons, elem_of_nil.
      intros [[= -> ->] | [[= -> ->] | [[= -> ->] | [[= -> ->] | []]]]];
        eexists; by vm_compute.
    + by vm_compute.
Defined.

(** C6, as stated, fails: the e-mail below passes the validator and fails
    the explicit pattern, the name is too short, and the dictionary of
    errors has the entry of the name and none for the e-mail. *)
Lemma email_format_error_not_gathered :
  email_validator (lit "a!b@example.com") = true
  ∧ re_match email_pattern (lit "a!b@example.com") = false
  ∧ ∃ errs,
      UserSchema.load (JDict (Sample.body (lit "A") "a!b@example.com" "secret1"))
      = Raise (ValidationError errs)
      ∧ errs !! "name" = Some ["Length must be between 2 and 100."]
      ∧ errs !! "email" = None.
Proof.
  split; [by vm_compute |]. split; [by vm_compute |].
  eexists. split; [by vm_compute |]. split; by vm_compute.
Qed.

End LoadRun.

(** ** Creation *)

Lemma UserSchema_load_violation `{Platform} json_data :
  violates_create_rules json_data →
  ∃ errs, UserSchema.load json_data = Raise (ValidationError errs) ∧ errs ≠ ∅.
Proof.
  destruct json_data as [| | | | | |m];
    try (intros _; exists invalid_input_type;
         split; [done | apply insert_non_empty]).
  intros Hv.
  destruct (Schema_load_gathers UserSchema.load_fields m UserSchema_keys
              (UserSchema_email_messages m) (UserSchema_values_email m))
    as [Hrejected Hhook].
  assert (∀ k f msgs, (k, f) ∈ UserSchema.load_fields → f (m !! k) = inl msgs →
            ∃ errs, UserSchema.load (JDict m) = Raise (ValidationError errs)
                    ∧ errs ≠ ∅) as Hfield.
  { intros k f msgs Hin Hf.
    destruct (Hrejected k f msgs Hin Hf) as (errs & Hload & Hall & _).
    exists errs. split; [exact Hload |]. intros ->.
    specialize (Hall k f msgs Hin Hf). by rewrite lookup_empty in Hall. }
  destruct Hv as [Hv | [Hv | [Hv | Hv]]].
  - apply name_violation_rejected in Hv as [msgs Hm].
    eapply Hfield; [| exact Hm]. apply list_elem_of_here.
  - destruct (decide (field_messages UserSchema.load_fields m
                      ∪ unknown_fields UserSchema.load_fields m = ∅))
      as [Hempty | Hne].
    + apply map_positive_l in Hempty as Hfm.
      assert (unknown_fields UserSchema.load_fields m = ∅) as Hunk.
      { rewrite Hfm, (left_id_L ∅ (∪)) in Hempty. exact Hempty. }
      pose proof (field_messages_accepted _ _ Hfm) as Hacc.
      destruct (m !! "email") as [[| | | |s| |]|] eqn:He;
        try (destruct (email_violation_rejected (m !! "email")) as [msgs Hm];
             [by rewrite He |];
             destruct (Hacc "email" (declare UserSchema.email (fmap kw_email)))
               as [kws Hk];
             [apply list_elem_of_further, list_elem_of_here | congruence]).
      destruct Hv as [Hv | [Hv | [Hs Hre]]].
      * destruct (email_violation_rejected (m !! "email")) as [msgs Hm];
          [rewrite He; by left |].
        destruct (Hacc "email" (declare UserSchema.email (fmap kw_email)))
          as [kws Hk];
          [apply list_elem_of_further, list_elem_of_here | congruence].
      * destruct (email_violation_rejected (m !! "email")) as [msgs Hm];
          [rewrite He; by right |].
        destruct (Hacc "email" (declare UserSchema.email (fmap kw_email)))
          as [kws Hk];
          [apply list_elem_of_further, list_elem_of_here | congruence].
      * exists {[ "email" := ["Invalid email format"] ]}.
        split; [by apply (Hhook s) | apply insert_non_empty].
    + eexists. split; [by apply Schema_load_rejected | done].
  - apply password_violation_rejected in Hv as [msgs Hm].
    eapply Hfield; [| exact Hm].
    do 3 apply list_elem_of_further. apply list_elem_of_here.
  - apply age_violation_rejected in Hv as [msgs Hm].
    eapply Hfield; [| exact Hm].
    do 2 apply list_elem_of_further. apply list_elem_of_here.
Qed.

(** A [POST /users] whose body breaks a create rule of the schema is
    answered with 400, either as missing input or as a validation error
    with its messages, and the table is left as it was. *)
Lemma create_user_rejects_invalid_body `{Platform} (json_data : json)
    (w : ambient) (db : table) :
  violates_create_rules json_data →
  ∃ r, user_routes.create_user json_data w db = (r, db)
       ∧ status r = 400
       ∧ (r = no_input
          ∨ ∃ messages, messages ≠ ∅ ∧ r = validation_error messages).
Proof.
  intros Hv. unfold user_routes.create_user.
  destruct (truthy json_data).
  - destruct (UserSchema_load_violation json_data Hv) as (errs & -> & Hne).
    exists (validation_error errs). repeat split. right. by exists errs.
  - exists no_input. repeat split. by left.
Qed.

Section CreationRun.
#[local] Existing Instance Sample.platform.

(** C4: two creation requests that break the create rules and are not
    rejected.  The register route loads no schema, and stores the user of
    a body whose name, email, password and age are all invalid, which
    [POST /users] refuses with 400; and [POST /users] creates a user whose
    name holds a tab, which is neither a letter nor a space, though the
    message of the schema is "Name can only contain letters and spaces". *)
Theorem create_rules_not_enforced :
  let body := JDict {[ "name" := JStr (lit "4"); "email" := JStr (lit "nobody");
                       "password" := JStr (lit "p"); "age" := JInt 200 ]} in
  let name := lit "Ann" ++ [9%N] ++ lit "Lee" in
  (* the body breaks every rule of the claim *)
  ((length (lit "4") < 2)%nat ∧ is_alpha 52 = false ∧ (64%N ∉ lit "nobody")
   ∧ (length (lit "p") < 6)%nat ∧ 150 < 200)
  (* the create route refuses it *)
  ∧ (∃ messages,
        user_routes.create_user body (Sample.world 100) []
        = (validation_error messages, [])
        ∧ is_Some (messages !! "name") ∧ is_Some (messages !! "email")
        ∧ is_Some (messages !! "password") ∧ is_Some (messages !! "age"))
  (* the register route stores it *)
  ∧ (∃ user,
        (auth_routes.register body (Sample.world 100) []).2 = [user]
        ∧ (auth_routes.register body (Sample.world 100) []).1
          = {| content := UserJson (User.to_dict user); status := 201 |}
        ∧ User.name user = lit "4"
        ∧ User.email user = lit "nobody"
        ∧ User.age user = Some 200)
  (* a tab in the name *)
  ∧ (9%N ∈ name ∧ is_alpha 9 = false ∧ 9%N ≠ 32%N)
  ∧ ∃ user,
      user_routes.create_user (JDict (Sample.body name "ann@x.com" "secret1"))
        (Sample.world 100) []
      = (reply (Some (One (UserSchema.dump user))) None
           (lit "User created successfully") 201,
         [user])
      ∧ User.name user = name.
Proof.
  cbv zeta. split; [| split; [| split; [| split]]].
  - split; [vm_compute; lia |]. split; [reflexivity |]. split.
    + apply (bool_decide_unpack _). by vm_compute.
    + split; [vm_compute; lia | lia].
  - eexists. split; [by vm_compute |]. repeat split; by eexists.
  - eexists. split; [by vm_compute |]. by vm_compute.
  - split; [| done]. apply (bool_decide_unpack _). by vm_compute.
  - exists (User.mk 1 (lit "Ann" ++ [9%N] ++ lit "Lee") (lit "ann@x.com") None
              Sample.digest 100 101 true).
    split; by vm_compute.
Qed.

End CreationRun.

(** * Further properties of the service, the routes and the helpers *)
(** ** The table under the operations of the service *)

Lemma next_id_fresh (db : table) u : u ∈ db → User.id u < next_id db.
Proof.
  unfold next_id. induction db as [|r db IH].
  - by intros ?%not_elem_of_nil.
  - rewrite fmap_cons. cbn [foldr].
    intros [-> | Hin]%elem_of_cons; [lia |]. specialize (IH Hin). lia.
Qed.

Lemma head_filter_snoc {A} (P : A → Prop) `{∀ x, Decision (P x)} l x :
  head (filter P (l ++ [x]))
  = match head (filter P l) with
    | Some y => Some y
    | None => if decide (P x) then Some x else None
    end.
Proof.
  rewrite filter_app. destruct (filter P l) as [|y l'] eqn:Hl; simpl.
  - rewrite filter_cons, filter_nil. by destruct (decide (P x)).
  - done.
Qed.

Lemma commit_row_ids u (db : table) : User.id <$> commit_row u db = User.id <$> db.
Proof.
  unfold commit_row. rewrite <- list_fmap_compose.
  apply list_fmap_ext. intros _ r _. simpl. by case_bool_decide.
Qed.

Lemma commit_row_length u (db : table) : length (commit_row u db) = length db.
Proof. unfold commit_row. apply length_fmap. Qed.

Lemma commit_row_twice u1 u2 (db : table) :
  User.id u1 = User.id u2 → commit_row u2 (commit_row u1 db) = commit_row u2 db.
Proof.
  intros Hid. unfold commit_row. rewrite <- list_fmap_compose.
  apply list_fmap_ext. intros _ r _. simpl.
  destruct (decide (User.id r = User.id u1)) as [H1 | H1].
  - rewrite (bool_decide_eq_true_2 (User.id r = User.id u1)) by done.
    rewrite (bool_decide_eq_true_2 (User.id u1 = User.id u2)) by done.
    by rewrite (bool_decide_eq_true_2 (User.id r = User.id u2)) by congruence.
  - by rewrite (bool_decide_eq_false_2 (User.id r = User.id u1)) by done.
Qed.

Lemma query_get_commit_row u (db : table) row :
  row ∈ db → User.id row = User.id u → query_get (User.id u) (commit_row u db) = Some u.
Proof.
  intros Hin Hid. unfold query_get.
  induction db as [|r db IH]; [by apply not_elem_of_nil in Hin |].
  unfold commit_row. rewrite fmap_cons, filter_cons.
  destruct (decide (User.id r = User.id u)) as [Hr | Hr].
  - rewrite bool_decide_eq_true_2 by done. by rewrite decide_True.
  - rewrite bool_decide_eq_false_2 by done. rewrite decide_False by done.
    apply elem_of_cons in Hin as [-> | Hin]; [done |]. by apply IH.
Qed.

Lemma get_user_by_id_commit_row_inactive u (db : table) :
  User.is_active u = false →
  UserService.get_user_by_id (User.id u) (commit_row u db) = None.
Proof.
  intros Hoff. apply head_filter_None. intros r Hr [Hid Hon].
  apply commit_row_elem in Hr as [-> | [_ Hne]]; congruence.
Qed.

Lemma get_user_by_id_commit_row_active u (db : table) row :
  row ∈ db → User.id row = User.id u → User.is_active u = true →
  UserService.get_user_by_id (User.id u) (commit_row u db) = Some u.
Proof.
  intros Hin Hid Hon. unfold UserService.get_user_by_id.
  induction db as [|r db IH]; [by apply not_elem_of_nil in Hin |].
  unfold commit_row. rewrite fmap_cons, filter_cons.
  destruct (decide (User.id r = User.id u)) as [Hr | Hr].
  - rewrite bool_decide_eq_true_2 by done. by rewrite decide_True.
  - rewrite bool_decide_eq_false_2 by done.
    rewrite decide_False by (intros [? _]; done).
    apply elem_of_cons in Hin as [-> | Hin]; [done |]. by apply IH.
Qed.

Lemma get_user_by_id_elem user_id (db : table) user :
  UserService.get_user_by_id user_id db = Some user →
  user ∈ db ∧ User.id user = user_id ∧ User.is_active user = true.
Proof. intros Hg. apply head_filter_Some in Hg. tauto. Qed.

Lemma first_by_email_None e (db : table) :
  first_by_email e db = None → ∀ u, u ∈ db → User.email u ≠ e.
Proof.
  unfold first_by_email. intros Hh u Hin He.
  destruct (head_filter_is_Some (λ u, User.email u = e) db u Hin He) as [x Hx].
  congruence.
Qed.

(** X1: A successful [create_user] appends one row, stamped by the two
    column defaults, which is then found by its id and by its email, and
    finds every other id and email as before. *)
Theorem create_user_inserts `{Platform} (user_data : dict) (w : ambient)
    (db : table) (name email password hashed : str) :
  get_name user_data = Some name →
  get_email user_data = Some email →
  get_password user_data = Some password →
  first_by_email email db = None →
  auth_utils.hash_password password w = Ok hashed →
  let user := User.mk (next_id db) name email (get_age user_data) hashed
                (default_created_at w) (default_updated_at w) true in
  UserService.create_user user_data w db = (Ok user, db ++ [user])
  ∧ UserService.get_user_by_id (next_id db) (db ++ [user]) = Some user
  ∧ UserService.get_user_by_email email (db ++ [user]) = Some user
  ∧ (∀ i, i ≠ next_id db →
          UserService.get_user_by_id i (db ++ [user])
          = UserService.get_user_by_id i db)
  ∧ (∀ e, e ≠ email →
          UserService.get_user_by_email e (db ++ [user])
          = UserService.get_user_by_email e db).
Proof.
  intros Hn He Hp Hfresh Hh user. repeat split.
  - unfold UserService.create_user, item. rewrite He, Hfresh, Hp, Hn. simpl.
    by rewrite Hh.
  - unfold UserService.get_user_by_id. rewrite head_filter_snoc.
    rewrite head_filter_None; [by rewrite decide_True |].
    intros r Hr [Hid _]. apply next_id_fresh in Hr. lia.
  - unfold UserService.get_user_by_email. rewrite head_filter_snoc.
    rewrite head_filter_None; [by rewrite decide_True |].
    intros r Hr [Hemail _]. by eapply first_by_email_None.
  - intros i Hi. unfold UserService.get_user_by_id. rewrite head_filter_snoc.
    destruct (head _); [done |]. rewrite decide_False; [done |].
    intros [Hid _]. by apply Hi.
  - intros e Hne. unfold UserService.get_user_by_email. rewrite head_filter_snoc.
    destruct (head _); [done |]. rewrite decide_False; [done |].
    intros [Hemail _]. by apply Hne.
Qed.

(** X2: Whatever its outcome, [create_user] keeps the ids and the emails of
    the table unique, and leaves every row that was there in its place. *)
Theorem create_user_keeps_constraints `{Platform} (user_data : dict)
    (w : ambient) (db : table) :
  unique_ids db → unique_emails db →
  unique_ids (UserService.create_user user_data w db).2
  ∧ unique_emails (UserService.create_user user_data w db).2
  ∧ db `prefix_of` (UserService.create_user user_data w db).2.
Proof.
  intros Hids Hemails. unfold UserService.create_user, item.
  destruct (get_email user_data) as [email|]; [| done].
  destruct (first_by_email email db) as [existing|] eqn:Hfresh; [done |].
  destruct (get_password user_data) as [password|]; [| done]. simpl.
  destruct (auth_utils.hash_password password w) as [hashed|e]; [| done]. simpl.
  destruct (get_name user_data) as [name|]; [| done]. simpl.
  split; [| split].
  - unfold unique_ids. rewrite fmap_app. apply NoDup_app.
    split; [done | split; [| apply NoDup_singleton]].
    intros i (r & -> & Hr)%list_elem_of_fmap [= Heq]%list_elem_of_singleton.
    apply next_id_fresh in Hr. lia.
  - unfold unique_emails. rewrite fmap_app. apply NoDup_app.
    split; [done | split; [| apply NoDup_singleton]].
    intros e (r & -> & Hr)%list_elem_of_fmap [= Heq]%list_elem_of_singleton.
    by eapply first_by_email_None.
  - by apply prefix_app_r.
Qed.

Lemma get_email_elem d e : get_email d = Some e → kw_email e ∈ d.
Proof.
  unfold get_email. intros Hh. apply head_Some_elem_of in Hh.
  apply list_elem_of_omap in Hh as (kw & Hin & Hkw).
  destruct kw; try done. by injection Hkw as ->.
Qed.

Lemma keys_set_password h d : key <$> set_password h d = key <$> d.
Proof.
  unfold set_password. rewrite <- list_fmap_compose.
  apply list_fmap_ext. by intros _ [] _.
Qed.

Lemma get_email_set_password h d : get_email (set_password h d) = get_email d.
Proof.
  unfold get_email, set_password. f_equal.
  induction d as [|[] d IH]; csimpl; by rewrite ?IH.
Qed.

Lemma update_loop_email kwargs self :
  get_email kwargs = None →
  User.email
    (foldl (λ self kw,
              if User.hasattr kw && negb (bool_decide (key kw = "id"))
              then User.setattr self kw else self) self kwargs)
  = User.email self.
Proof.
  revert self. unfold get_email.
  induction kwargs as [|kw kwargs IH]; intros self Hg; [done |].
  simpl. destruct kw; simpl in Hg; try done; by rewrite IH.
Qed.

(** The email of the row that [User.update] writes: the one of the
    dictionary when it has one, the stored one otherwise. *)
Lemma update_email self kwargs w db :
  NoDup (key <$> kwargs) →
  User.email (UserMethods.update self kwargs w db).1
  = default (User.email self) (get_email kwargs).
Proof.
  intros Hnd. destruct (get_email kwargs) as [e|] eqn:Hg.
  - apply get_email_elem in Hg.
    change (User.email (UserMethods.update self kwargs w db).1 = e).
    rewrite <- (update_sets_supplied self kwargs w db (kw_email e)) by done.
    by destruct (UserMethods.update self kwargs w db).1.
  - change (User.email (UserMethods.update self kwargs w db).1 = User.email self).
    unfold UserMethods.update. cbn [fst].
    rewrite <- (update_loop_email kwargs self Hg).
    by destruct (foldl _ _ kwargs).
Qed.

Lemma update_id self kwargs w db :
  User.id (UserMethods.update self kwargs w db).1 = User.id self.
Proof.
  unfold UserMethods.update. cbn [fst].
  destruct (update_loop_frame kwargs self) as [Hid _]. cbv zeta in Hid.
  rewrite <- Hid. by destruct (foldl _ _ kwargs).
Qed.

Lemma commit_row_absent u (db : table) :
  (∀ r, r ∈ db → User.id r ≠ User.id u) → commit_row u db = db.
Proof.
  intros Hall. unfold commit_row.
  rewrite <- (list_fmap_id db) at 2. apply list_fmap_ext.
  intros i r Hr. simpl. rewrite bool_decide_eq_false_2; [done |].
  apply Hall. by eapply list_elem_of_lookup_2.
Qed.

(** Writing a row back keeps the emails unique when it keeps its email or
    takes one that no row has. *)
Lemma commit_row_emails u (db : table) user :
  unique_ids db → unique_emails db → user ∈ db → User.id u = User.id user →
  User.email u = User.email user ∨ User.email u ∉ User.email <$> db →
  unique_emails (commit_row u db).
Proof.
  unfold unique_ids, unique_emails.
  induction db as [|r db IH]; intros Hids Hemails Hin Hid Hmail.
  - by apply not_elem_of_nil in Hin.
  - rewrite fmap_cons in Hids. rewrite fmap_cons in Hemails.
    apply NoDup_cons in Hids as [Hr Hids], Hemails as [Hre Hemails].
    unfold commit_row. rewrite fmap_cons. fold (commit_row u db).
    apply elem_of_cons in Hin as [-> | Hin].
    + rewrite bool_decide_eq_true_2 by done.
      rewrite commit_row_absent.
      * rewrite fmap_cons. apply NoDup_cons. split; [| done].
        destruct Hmail as [-> | Hmail]; [done |].
        intros Hin. apply Hmail. rewrite fmap_cons. by apply list_elem_of_further.
      * intros x Hx Heq. apply Hr. rewrite <- Hid, <- Heq.
        apply list_elem_of_fmap. by exists x.
    + assert (User.id r ≠ User.id u) as Hne.
      { intros Heq. apply Hr. rewrite Heq, Hid.
        apply list_elem_of_fmap. by exists user. }
      rewrite bool_decide_eq_false_2 by done.
      rewrite fmap_cons. apply NoDup_cons. split.
      * intros (x & Hex & Hx)%list_elem_of_fmap.
        apply commit_row_elem in Hx as [-> | [Hx _]].
        -- destruct Hmail as [Hmail | Hmail].
           ++ apply Hre. rewrite Hex, Hmail. apply list_elem_of_fmap.
              by exists user.
           ++ apply Hmail. rewrite <- Hex, fmap_cons. apply list_elem_of_here.
        -- apply Hre. rewrite Hex. apply list_elem_of_fmap. by exists x.
      * apply IH; try done.
        destruct Hmail as [Hmail | Hmail]; [by left | right].
        intros Hx. apply Hmail. rewrite fmap_cons. by apply list_elem_of_further.
Qed.

(** X3: Whatever its outcome, [update_user] with one entry per key keeps the
    ids and the emails of the table unique, and the ids where they were. *)
Theorem update_user_keeps_constraints `{Platform} (user_id : Z)
    (update_data : dict) (w : ambient) (db : table) :
  NoDup (key <$> update_data) → unique_ids db → unique_emails db →
  unique_ids (UserService.update_user user_id update_data w db).2
  ∧ unique_emails (UserService.update_user user_id update_data w db).2
  ∧ User.id <$> (UserService.update_user user_id update_data w db).2
    = User.id <$> db.
Proof.
  intros Hkeys Hids Hemails. unfold UserService.update_user.
  destruct (UserService.get_user_by_id user_id db) as [user|] eqn:Hget; [| done].
  apply get_user_by_id_elem in Hget as (Hin & Hid & _).
  assert (get_email update_data = None
          ∨ ∃ e, get_email update_data = Some e
                 ∧ (match first_by_email e db with
                    | Some existing => bool_decide (User.id existing ≠ user_id)
                    | None => false
                    end = true
                    ∨ e = User.email user ∨ e ∉ User.email <$> db)) as Hcase.
  { destruct (get_email update_data) as [e|]; [right | by left].
    exists e. split; [done |].
    destruct (first_by_email e db) as [existing|] eqn:Hfirst.
    - case_bool_decide as Hex; [by left | right; left].
      apply head_filter_Some in Hfirst as [He Hexin].
      assert (existing = user) as -> by (eapply unique_id_row; eauto; congruence).
      done.
    - right. right. intros (x & -> & Hx)%list_elem_of_fmap.
      by eapply first_by_email_None. }
  assert (∀ d, key <$> d = key <$> update_data →
               get_email d = get_email update_data →
               unique_ids (UserMethods.update user d w db).2
               ∧ unique_emails (UserMethods.update user d w db).2
               ∧ User.id <$> (UserMethods.update user d w db).2 = User.id <$> db
               ∨ ∃ e, get_email update_data = Some e
                      ∧ match first_by_email e db with
                        | Some existing => bool_decide (User.id existing ≠ user_id)
                        | None => false
                        end = true) as Hwrite.
  { intros d Hd Hge.
    destruct Hcase as [Hnone | (e & Hsome & [Htaken | Hfree])];
      [left | by right; exists e | left].
    - change (UserMethods.update user d w db).2
        with (commit_row (UserMethods.update user d w db).1 db).
      split; [| split].
      + unfold unique_ids. by rewrite commit_row_ids.
      + apply (commit_row_emails _ db user); try done; [apply update_id |].
        left. rewrite update_email by (by rewrite Hd). by rewrite Hge, Hnone.
      + apply commit_row_ids.
    - change (UserMethods.update user d w db).2
        with (commit_row (UserMethods.update user d w db).1 db).
      split; [| split].
      + unfold unique_ids. by rewrite commit_row_ids.
      + apply (commit_row_emails _ db user); try done; [apply update_id |].
        rewrite update_email by (by rewrite Hd). rewrite Hge, Hsome. simpl.
        destruct Hfree; [by left | by right].
      + apply commit_row_ids. }
  destruct (get_email update_data) as [e|] eqn:Hge.
  - destruct (match first_by_email e db with
              | Some existing => bool_decide (User.id existing ≠ user_id)
              | None => false
              end) eqn:Htaken; [done |].
    destruct (get_password update_data) as [password|].
    + destruct (auth_utils.hash_password password w) as [h|err]; [| done].
      cbn [mbind result_bind].
      destruct (Hwrite (set_password h update_data)) as [Hok | (e' & [= <-] & Ht)];
        [apply keys_set_password | by rewrite get_email_set_password | | congruence].
      by destruct (UserMethods.update user (set_password h update_data) w db).
    + destruct (Hwrite update_data) as [Hok | (e' & [= <-] & Ht)];
        [done | done | | congruence].
      by destruct (UserMethods.update user update_data w db).
  - destruct (get_password update_data) as [password|].
    + destruct (auth_utils.hash_password password w) as [h|err]; [| done].
      cbn [mbind result_bind].
      destruct (Hwrite (set_password h update_data)) as [Hok | (e' & [=] & _)];
        [apply keys_set_password | by rewrite get_email_set_password |].
      by destruct (UserMethods.update user (set_password h update_data) w db).
    + destruct (Hwrite update_data) as [Hok | (e' & [=] & _)]; [done | done |].
      by destruct (UserMethods.update user update_data w db).
Qed.

(** ** Soft deletion, toggling and permanent deletion *)

(** The row that a soft delete writes. *)
Lemma delete_user_run (user_id : Z) (w : ambient) (db : table) (user : User.t) :
  UserService.get_user_by_id user_id db = Some user →
  UserService.delete_user user_id w db
  = (Ok true,
     commit_row (User.setattr (User.setattr user (kw_is_active false))
                   (kw_updated_at (utcnow w))) db).
Proof. intros Hget. unfold UserService.delete_user. by rewrite Hget. Qed.

(** X4: [delete_user] on an active user writes the row back with the flag
    off: the row stays in the table, where [User.query.get] still finds
    it, and the active lookups no longer do; a second [delete_user] then
    raises "User not found". *)
Theorem delete_user_soft (user_id : Z) (w w2 : ambient) (db : table)
    (user : User.t) :
  UserService.get_user_by_id user_id db = Some user →
  let user' := User.setattr (User.setattr user (kw_is_active false))
                 (kw_updated_at (utcnow w)) in
  UserService.delete_user user_id w db = (Ok true, commit_row user' db)
  ∧ UserService.get_user_by_id user_id (commit_row user' db) = None
  ∧ (user' ∉ UserService.get_all_users (commit_row user' db))
  ∧ query_get user_id (commit_row user' db) = Some user'
  ∧ length (commit_row user' db) = length db
  ∧ (∀ (i : nat) r, db !! i = Some r → User.id r ≠ user_id →
                    commit_row user' db !! i = Some r)
  ∧ UserService.delete_user user_id w2 (commit_row user' db)
    = (Raise (ValueError "User not found"), commit_row user' db).
Proof.
  intros Hget user'.
  pose proof Hget as (Hin & Hid & Hon)%get_user_by_id_elem.
  assert (User.id user' = user_id) as Hid' by done.
  assert (UserService.get_user_by_id user_id (commit_row user' db) = None)
    as Hgone.
  { rewrite <- Hid'. by apply get_user_by_id_commit_row_inactive. }
  repeat split.
  - by apply delete_user_run.
  - exact Hgone.
  - unfold UserService.get_all_users. rewrite list_elem_of_filter. by intros [? _].
  - rewrite <- Hid'. by apply (query_get_commit_row user' db user).
  - apply commit_row_length.
  - intros i r Hr Hne. apply commit_row_other; [done |]. by rewrite Hid'.
  - unfold UserService.delete_user. by rewrite Hgone.
Qed.

Lemma setattr_is_active_same user :
  User.setattr user (kw_is_active (User.is_active user)) = user.
Proof. by destruct user. Qed.

(** X5: [toggle_user_status] after [delete_user] brings the user back as it
    was, with a new [updated_at]. *)
Theorem delete_then_toggle_restores (user_id : Z) (w w2 : ambient) (db : table)
    (user : User.t) :
  UserService.get_user_by_id user_id db = Some user →
  let restored := User.setattr user (kw_updated_at (utcnow w2)) in
  UserService.toggle_user_status user_id w2 (UserService.delete_user user_id w db).2
  = (Ok restored, commit_row restored db)
  ∧ UserService.get_user_by_id user_id (commit_row restored db) = Some restored.
Proof.
  intros Hget restored. rewrite (delete_user_run user_id w db user Hget).
  pose proof Hget as (Hin & Hid & Hon)%get_user_by_id_elem.
  set (user' := User.setattr _ (kw_updated_at (utcnow w))).
  assert (query_get user_id (commit_row user' db) = Some user') as Hq.
  { rewrite <- Hid. by apply (query_get_commit_row user' db user). }
  split.
  - unfold UserService.toggle_user_status. cbn [snd]. rewrite Hq.
    unfold UserMethods.update. cbn [foldl]. simpl.
    rewrite commit_row_twice by done.
    unfold restored. destruct user as [i n e a p c u act].
    simpl in Hon. by subst act.
  - rewrite <- Hid. apply (get_user_by_id_commit_row_active restored db user); done.
Qed.

(** X6: Toggling twice leaves every column but [updated_at] as it was. *)
Theorem toggle_twice (user_id : Z) (w w2 : ambient) (db : table) (user : User.t) :
  query_get user_id db = Some user →
  let back := User.setattr user (kw_updated_at (utcnow w2)) in
  UserService.toggle_user_status user_id w2
    (UserService.toggle_user_status user_id w db).2
  = (Ok back, commit_row back db).
Proof.
  intros Hget back.
  pose proof Hget as [Hid Hin]%head_filter_Some.
  set (user1 := User.setattr
                  (User.setattr user (kw_is_active (negb (User.is_active user))))
                  (kw_updated_at (utcnow w))).
  assert (UserService.toggle_user_status user_id w db
          = (Ok user1, commit_row user1 db)) as ->.
  { unfold UserService.toggle_user_status. by rewrite Hget. }
  assert (query_get user_id (commit_row user1 db) = Some user1) as Hq.
  { rewrite <- Hid. by apply (query_get_commit_row user1 db user). }
  unfold UserService.toggle_user_status. cbn [snd]. rewrite Hq.
  unfold UserMethods.update. simpl.
  rewrite commit_row_twice by done.
  unfold back. destruct user as [i n e a p c u act]. simpl.
  by rewrite negb_involutive.
Qed.

(** X7: [permanently_delete_user] removes every row with the id and no other;
    afterwards no lookup finds the id, and a second call raises "User not
    found". *)
Theorem permanently_delete_removes (user_id : Z) (db : table) (user : User.t) :
  query_get user_id db = Some user →
  let db' := filter (λ r, User.id r ≠ user_id) db in
  UserService.permanently_delete_user user_id db = (Ok true, db')
  ∧ query_get user_id db' = None
  ∧ UserService.get_user_by_id user_id db' = None
  ∧ (∀ r, r ∈ db' ↔ r ∈ db ∧ User.id r ≠ user_id)
  ∧ db' `sublist_of` db
  ∧ UserService.permanently_delete_user user_id db'
    = (Raise (ValueError "User not found"), db').
Proof.
  intros Hget db'.
  pose proof Hget as [Hid Hin]%head_filter_Some.
  assert (query_get user_id db' = None) as Hgone.
  { apply head_filter_None. intros r Hr Hrid.
    apply list_elem_of_filter in Hr as [Hne _]. done. }
  split; [| split; [| split; [| split; [| split]]]].
  - unfold UserService.permanently_delete_user, UserMethods.delete.
    rewrite Hget. by rewrite Hid.
  - exact Hgone.
  - apply head_filter_None. intros r Hr [Hrid _].
    apply list_elem_of_filter in Hr as [Hne _]. done.
  - intros r. unfold db'. rewrite list_elem_of_filter. tauto.
  - apply sublist_filter.
  - unfold UserService.permanently_delete_user. by rewrite Hgone.
Qed.

(** ** Counting *)

Lemma count_commit_row_off u (db : table) user :
  unique_ids db → user ∈ db → User.id u = User.id user →
  User.is_active user = true → User.is_active u = false →
  S (UserService.get_user_count (commit_row u db)) = UserService.get_user_count db.
Proof.
  unfold unique_ids, UserService.get_user_count.
  induction db as [|r db IH]; intros Hids Hin Hid Hon Hoff.
  - by apply not_elem_of_nil in Hin.
  - rewrite fmap_cons in Hids. apply NoDup_cons in Hids as [Hr Hids].
    unfold commit_row. rewrite fmap_cons. fold (commit_row u db).
    rewrite !filter_cons.
    apply elem_of_cons in Hin as [-> | Hin].
    + rewrite bool_decide_eq_true_2 by done.
      rewrite decide_False by congruence. rewrite decide_True by done.
      rewrite commit_row_absent; [done |].
      intros x Hx Heq. apply Hr. rewrite <- Hid, <- Heq.
      apply list_elem_of_fmap. by exists x.
    + rewrite bool_decide_eq_false_2.
      * destruct (decide (User.is_active r = true)); simpl; rewrite <- IH; done.
      * intros Heq. apply Hr. rewrite Heq, Hid.
        apply list_elem_of_fmap. by exists user.
Qed.

(** X8: The count of active users goes up by one with a successful
    [create_user]. *)
Theorem get_user_count_after_create `{Platform} (user_data : dict) (w : ambient)
    (db db' : table) (user : User.t) :
  UserService.create_user user_data w db = (Ok user, db') →
  UserService.get_user_count db' = S (UserService.get_user_count db).
Proof.
  unfold UserService.create_user, item.
  destruct (get_email user_data) as [email|]; [| done].
  destruct (first_by_email email db); [done |].
  destruct (get_password user_data) as [password|]; [| done]. simpl.
  destruct (auth_utils.hash_password password w); [| done]. simpl.
  destruct (get_name user_data); [| done]. simpl. intros [= <- <-].
  unfold UserService.get_user_count.
  rewrite filter_app, length_app, filter_cons, decide_True by done.
  simpl. lia.
Qed.

(** X9: On a table with unique ids, the count of active users goes down by
    one with a successful [delete_user]. *)
Theorem get_user_count_after_delete (user_id : Z) (w : ambient) (db : table) :
  unique_ids db → is_Some (UserService.get_user_by_id user_id db) →
  S (UserService.get_user_count (UserService.delete_user user_id w db).2)
  = UserService.get_user_count db.
Proof.
  intros Hids [user Hget].
  rewrite (delete_user_run user_id w db user Hget).
  pose proof Hget as (Hin & Hid & Hon)%get_user_by_id_elem.
  by apply (count_commit_row_off _ db user).
Qed.

(** ** Registration and login together *)

Lemma utf8_encode_ascii (b : bytes) :
  Forall (λ c, (c < 128)%N) b → utf8_encode b = Some b.
Proof.
  unfold utf8_encode. intros Hb.
  assert (mapM utf8_char b = Some ((λ c, [c]) <$> b)) as ->.
  { apply mapM_Some. induction Hb as [|c b Hc Hb IH]; constructor; [| done].
    unfold utf8_char. apply N.ltb_lt in Hc. by rewrite Hc. }
  simpl. f_equal. clear Hb. induction b as [|c b IH]; [done |].
  csimpl. by f_equal.
Qed.

Lemma utf8_decode_ascii (b : bytes) :
  Forall (λ c, (c < 128)%N) b → utf8_decode b = Some b.
Proof.
  induction 1 as [|c b Hc Hb IH]; [done |].
  simpl. apply N.ltb_lt in Hc. by rewrite Hc, IH.
Qed.

(** X10: When the hashing library returns a digest in ASCII that it verifies
    against the password it was made from, the user whom [create_user]
    has just stored authenticates with that password. *)
Theorem create_then_authenticate `{Platform} (user_data : dict) (w : ambient)
    (db db' : table) (user : User.t) (password : str) (p : bytes) :
  UserService.create_user user_data w db = (Ok user, db') →
  get_password user_data = Some password →
  utf8_encode password = Some p →
  (∀ h, bcrypt_hashpw p (gensalt w) = Ok h →
        Forall (λ c, (c < 128)%N) h ∧ bcrypt_checkpw p h = Ok true) →
  UserService.authenticate_user (User.email user) password db' = Ok (Some user).
Proof.
  intros Hcreate Hp Henc Hlib. revert Hcreate.
  unfold UserService.create_user, item. rewrite Hp.
  destruct (get_email user_data) as [email|]; [| done].
  destruct (first_by_email email db) eqn:Hfresh; [done |]. simpl.
  unfold auth_utils.hash_password at 1, auth_utils.encode. rewrite Henc. simpl.
  destruct (bcrypt_hashpw p (gensalt w)) as [h|e] eqn:Hh; [| done]. simpl.
  destruct (Hlib h eq_refl) as [Hascii Hcheck].
  unfold auth_utils.decode. rewrite utf8_decode_ascii by done. simpl.
  destruct (get_name user_data) as [name|]; [| done]. simpl.
  intros [= <- <-]. simpl.
  unfold UserService.authenticate_user. rewrite head_filter_snoc.
  rewrite head_filter_None.
  - rewrite decide_True by done.
    unfold auth_utils.verify_password, auth_utils.to_bytes, auth_utils.encode.
    simpl. rewrite Henc, (utf8_encode_ascii h) by done. simpl. by rewrite Hcheck.
  - intros r Hr [Hemail _]. by eapply first_by_email_None.
Qed.

Lemma filter_ext_elem {A} (P Q : A → Prop) `{∀ x, Decision (P x)}
    `{∀ x, Decision (Q x)} (l : list A) :
  (∀ x, x ∈ l → P x ↔ Q x) → filter P l = filter Q l.
Proof.
  induction l as [|x l IH]; intros Hext; [done |].
  rewrite !filter_cons, IH.
  - destruct (decide (P x)) as [HP | HP], (decide (Q x)) as [HQ | HQ]; try done;
      destruct (Hext x); try apply list_elem_of_here; tauto.
  - intros y Hy. apply Hext. by apply list_elem_of_further.
Qed.

(** X11: When every row with the email is active, the login route answers as
    the service decides: a token for the user it returns, 401 where it
    returns [None], and the error where it raises. *)
Theorem login_follows_service `{Platform} (db : table) (m : gmap string json)
    (email password : str) :
  m !! "email" = Some (JStr email) →
  m !! "password" = Some (JStr password) →
  (∀ u, u ∈ db → User.email u = email → User.is_active u = true) →
  auth_routes.login (JDict m) db
  = match UserService.authenticate_user email password db with
    | Ok (Some user) =>
        {| content := Token (create_access_token (User.id user)); status := 200 |}
    | Ok None => {| content := Msg "Invalid credentials"; status := 401 |}
    | Raise e => uncaught e
    end.
Proof.
  intros He Hp Hactive.
  unfold auth_routes.login, UserService.authenticate_user, subscript.
  rewrite He. simpl. unfold first_by_email.
  assert (filter (λ u, User.email u = email) db
          = filter (λ u, User.email u = email ∧ User.is_active u = true) db)
    as ->.
  { apply filter_ext_elem. intros u Hu. split; [| tauto].
    intros Hue. split; [done |]. by apply Hactive. }
  destruct (head _) as [user|]; [| done].
  rewrite Hp. simpl.
  unfold auth_utils.check_password, auth_utils.verify_password,
    auth_utils.to_bytes.
  destruct (auth_utils.encode password); [| done]. simpl.
  destruct (auth_utils.encode (User.password user)); [| done]. simpl.
  by destruct (bcrypt_checkpw _ _) as [[]|].
Qed.

(** X12: A login body without a password is answered 401 when no row has the
    email, since the password is then never read, and ends in an uncaught
    [KeyError] when one has. *)
Theorem login_without_password `{Platform} (db : table) (m : gmap string json)
    (email : str) :
  m !! "email" = Some (JStr email) →
  m !! "password" = None →
  auth_routes.login (JDict m) db
  = match first_by_email email db with
    | None => {| content := Msg "Invalid credentials"; status := 401 |}
    | Some _ => uncaught (KeyError "password")
    end.
Proof.
  intros He Hp. unfold auth_routes.login, subscript. rewrite He. simpl.
  destruct (first_by_email email db); [| done]. by rewrite Hp.
Qed.

(** X13: The register route stores age 0 for a body without an age, where the
    service behind [POST /users] stores none. *)
Theorem register_default_age `{Platform} (m : gmap string json) (w : ambient)
    (db : table) (name email password hashed : str) :
  m !! "name" = Some (JStr name) →
  m !! "email" = Some (JStr email) →
  m !! "password" = Some (JStr password) →
  m !! "age" = None →
  first_by_email email db = None →
  auth_utils.hash_password password w = Ok hashed →
  let registered := User.mk (next_id db) name email (Some 0) hashed
                      (default_created_at w) (default_updated_at w) true in
  let created := User.mk (next_id db) name email None hashed
                   (default_created_at w) (default_updated_at w) true in
  auth_routes.register (JDict m) w db
  = ({| content := UserJson (User.to_dict registered); status := 201 |},
     db ++ [registered])
  ∧ UserService.create_user
      [kw_name name; kw_email email; kw_password password] w db
    = (Ok created, db ++ [created]).
Proof.
  intros Hn He Hp Ha Hfresh Hh registered created. split.
  - unfold auth_routes.register, subscript, get.
    rewrite He. simpl. rewrite Hfresh, Hn. simpl. rewrite Hp. simpl.
    rewrite Hh. simpl. by rewrite Ha.
  - unfold UserService.create_user, item. simpl. rewrite Hfresh. simpl.
    by rewrite Hh.
Qed.

(** ** The routes and the table *)

Lemma create_user_outcome `{Platform} (user_data : dict) (w : ambient)
    (db : table) :
  (∃ e, UserService.create_user user_data w db = (Raise e, db))
  ∨ (∃ user, UserService.create_user user_data w db = (Ok user, db ++ [user])
             ∧ User.id user = next_id db ∧ User.is_active user = true).
Proof.
  unfold UserService.create_user, item.
  destruct (get_email user_data) as [email|]; [| left; by eexists].
  destruct (first_by_email email db); [left; by eexists |].
  destruct (get_password user_data) as [password|]; [| left; by eexists]. simpl.
  destruct (auth_utils.hash_password password w); [| left; by eexists]. simpl.
  destruct (get_name user_data); [| left; by eexists]. simpl.
  right. by eexists.
Qed.

Lemma update_user_outcome `{Platform} (user_id : Z) (update_data : dict)
    (w : ambient) (db : table) :
  (∃ e, UserService.update_user user_id update_data w db = (Raise e, db))
  ∨ (∃ user', UserService.update_user user_id update_data w db
              = (Ok user', commit_row user' db)
              ∧ User.id user' = user_id).
Proof.
  unfold UserService.update_user.
  destruct (UserService.get_user_by_id user_id db) as [user|] eqn:Hget;
    [| left; by eexists].
  apply get_user_by_id_elem in Hget as (_ & Hid & _).
  match goal with |- context [if ?b then _ else _] => destruct b end;
    [left; by eexists |].
  match goal with |- context [match ?h with Ok _ => _ | Raise _ => _ end] =>
    destruct h as [d|e] end; [| left; by eexists].
  right. exists (UserMethods.update user d w db).1.
  split; [done |]. by rewrite update_id.
Qed.

Lemma handle_status e msg : status (handle e msg) = 400 ∨ status (handle e msg) = 500.
Proof. unfold handle. destruct (is_ValueError e); [by left | by right]. Qed.

(** X14: [POST /users] either answers 201 and has appended the one user whose
    view it returns, or answers 400 or 500 and has left the table as it
    was. *)
Theorem create_route_atomic `{Platform} (json_data : json) (w : ambient)
    (db : table) :
  (∃ user,
      user_routes.create_user json_data w db
      = (reply (Some (One (UserSchema.dump user))) None
           (lit "User created successfully") 201,
         db ++ [user])
      ∧ User.id user = next_id db ∧ User.is_active user = true)
  ∨ (∃ r, user_routes.create_user json_data w db = (r, db)
          ∧ (status r = 400 ∨ status r = 500)).
Proof.
  unfold user_routes.create_user.
  destruct (truthy json_data); [| right; eexists; split; [done | by left]].
  destruct (UserSchema.load json_data) as [data|e]; cbn [negb].
  - destruct (create_user_outcome data w db) as [[e ->] | (user & -> & Hu)].
    + right. eexists. split; [done | apply handle_status].
    + left. by exists user.
  - right. destruct e; eexists; (split; [done |]);
      try apply handle_status. by left.
Qed.

(** X15: [PUT /users/<id>] answers 404 exactly when no active user has the id;
    it either answers 200 and has written one row back under that id, or
    has left the table as it was. *)
Theorem update_route_atomic `{Platform} (user_id : Z) (json_data : json)
    (w : ambient) (db : table) :
  (UserService.get_user_by_id user_id db = None ↔
   status (user_routes.update_user user_id json_data w db).1 = 404)
  ∧ ((∃ user',
        user_routes.update_user user_id json_data w db
        = (reply (Some (One (UserSchema.dump user'))) None
             (lit "User updated successfully") 200,
           commit_row user' db)
        ∧ User.id user' = user_id)
     ∨ (∃ r, user_routes.update_user user_id json_data w db = (r, db)
             ∧ (status r = 400 ∨ status r = 404 ∨ status r = 500))).
Proof.
  unfold user_routes.update_user.
  destruct (UserService.get_user_by_id user_id db) as [user|] eqn:Hget.
  2: { split; [done |]. right. eexists. split; [done |]. right. by left. }
  destruct (truthy json_data); cbn [negb].
  2: { split; [done |]. right. eexists. split; [done |]. by left. }
  destruct (UserUpdateSchema.load json_data) as [data|e].
  - destruct (update_user_outcome user_id data w db)
      as [[e ->] | (user' & -> & Hid)].
    + destruct (handle_status e "Failed to update user") as [Hs | Hs].
      * split; [split; [done | cbn [fst]; rewrite Hs; done] |].
        right. eexists. split; [done | by left].
      * split; [split; [done | cbn [fst]; rewrite Hs; done] |].
        right. eexists. split; [done | right; by right].
    + split; [done |]. left. by exists user'.
  - destruct (handle_status e "Failed to update user") as [Hs | Hs].
    + split.
      * split; [done |]. destruct e; cbn [fst]; try (rewrite Hs; done); done.
      * right. destruct e; eexists; (split; [done |]); try (by left).
    + split.
      * split; [done |]. destruct e; cbn [fst]; try (rewrite Hs; done); done.
      * right. destruct e; eexists; (split; [done |]); try (right; by right).
        by left.
Qed.

(** X16: After a [DELETE /users/<id>] that answered 200, [GET /users/<id>] and
    a second [DELETE] answer 404, and the table is as the soft delete left
    it. *)
Theorem delete_route_then_gone (user_id : Z) (w w2 : ambient)
    (db : table) (user : User.t) :
  UserService.get_user_by_id user_id db = Some user →
  ∃ db',
    user_routes.delete_user user_id w db
    = (reply None None (lit "User deleted successfully") 200, db')
    ∧ length db' = length db
    ∧ user_routes.get_user user_id db' = not_found user_id
    ∧ user_routes.delete_user user_id w2 db' = (not_found user_id, db').
Proof.
  intros Hget.
  pose proof Hget as (Hin & Hid & Hon)%get_user_by_id_elem.
  set (user' := User.setattr (User.setattr user (kw_is_active false))
                  (kw_updated_at (utcnow w))).
  assert (UserService.get_user_by_id user_id (commit_row user' db) = None)
    as Hgone.
  { rewrite <- Hid. by apply (get_user_by_id_commit_row_inactive user'). }
  exists (commit_row user' db). split; [| split; [| split]].
  - unfold user_routes.delete_user.
    by rewrite Hget, (delete_user_run user_id w db user Hget).
  - apply commit_row_length.
  - unfold user_routes.get_user. by rewrite Hgone.
  - unfold user_routes.delete_user. by rewrite Hgone.
Qed.

(** X17: The users that the search returns are among those that the listing
    returns, in the same order, and are all active; the route answers a
    query that is not empty with them, and refuses a missing or empty
    query with 400. *)
Theorem search_within_listing (query : str) (db : table) :
  query ≠ [] →
  UserService.search_users query db `sublist_of` UserService.get_all_users db
  ∧ Forall (λ u, User.is_active u = true) (UserService.search_users query db)
  ∧ user_routes.search_users (Some query) db
    = reply (Some (Many (UserSchema.dump <$> UserService.search_users query db)))
        (Some (length (UserService.search_users query db)))
        (lit "Search results for: " ++ query) 200
  ∧ status (user_routes.search_users None db) = 400
  ∧ status (user_routes.search_users (Some []) db) = 400.
Proof.
  intros Hq. split; [| split; [| split; [| split]]].
  - unfold UserService.search_users, UserService.get_all_users.
    rewrite <- list_filter_filter. apply sublist_filter.
  - apply Forall_forall. intros u Hu.
    unfold UserService.search_users in Hu.
    by apply list_elem_of_filter in Hu as [[_ ?] _].
  - unfold user_routes.search_users. simpl.
    destruct query; [done |]. by rewrite length_fmap.
  - done.
  - done.
Qed.

(** ** What the schemas accept *)

Lemma field_messages_empty fields (m : gmap string json) :
  (∀ k f, (k, f) ∈ fields → ∃ kws, f (m !! k) = inr kws) →
  field_messages fields m = ∅.
Proof.
  induction fields as [|[k f] fields IH]; intros Hacc; [done |]. simpl.
  destruct (Hacc k f) as [kws ->]; [apply list_elem_of_here |].
  apply IH. intros k' f' Hin. apply Hacc. by apply list_elem_of_further.
Qed.

Lemma unknown_fields_empty fields (m : gmap string json) :
  unknown_fields fields m = ∅ ↔ ∀ k, is_Some (m !! k) → k ∈ fields.*1.
Proof.
  unfold unknown_fields. rewrite fmap_empty_iff. split.
  - intros He k [v Hv]. destruct (decide (k ∈ fields.*1)) as [|Hn]; [done |].
    assert (filter (λ kv, kv.1 ∉ fields.*1) m !! k = Some v) as Hl
      by (by apply map_lookup_filter_Some).
    by rewrite He, lookup_empty in Hl.
  - intros Hall. apply map_eq. intros k. rewrite lookup_empty.
    destruct (filter _ m !! k) as [v|] eqn:Hl; [| done].
    apply map_lookup_filter_Some in Hl as [Hv Hn].
    destruct Hn. apply Hall. by eexists.
Qed.

Lemma unknown_fields_lookup fields (m : gmap string json) k :
  is_Some (m !! k) → k ∉ fields.*1 →
  (field_messages fields m ∪ unknown_fields fields m) !! k
  = Some ["Unknown field."].
Proof.
  intros [v Hv] Hk. apply lookup_union_Some_raw. right. split.
  - destruct (field_messages fields m !! k) as [msgs|] eqn:Hl; [| done].
    apply field_messages_lookup_Some in Hl as (f & Hin & _).
    destruct Hk. apply list_elem_of_fmap. by exists (k, f).
  - unfold unknown_fields. rewrite lookup_fmap.
    by rewrite (proj2 (map_lookup_filter_Some _ m k v)).
Qed.

(** X18: A body with a key that the schema of its route does not load is
    answered 400 with "Unknown field." under that key, and the table is
    left as it was; so it is for [id] and [created_at] on both routes and
    for [is_active] on [POST /users]. *)
Theorem undeclared_key_rejected `{Platform} (m : gmap string json) (k : string)
    (user_id : Z) (w : ambient) (db : table) :
  is_Some (m !! k) →
  (k ∉ ["name"; "email"; "age"; "password"] →
   ∃ errs, user_routes.create_user (JDict m) w db = (validation_error errs, db)
           ∧ errs !! k = Some ["Unknown field."])
  ∧ (k ∉ ["name"; "email"; "age"; "password"; "is_active"] →
     is_Some (UserService.get_user_by_id user_id db) →
     ∃ errs, user_routes.update_user user_id (JDict m) w db
             = (validation_error errs, db)
             ∧ errs !! k = Some ["Unknown field."]).
Proof.
  intros Hk.
  assert (truthy (JDict m) = true) as Ht.
  { simpl. rewrite bool_decide_eq_false_2; [done |].
    intros Hsize%map_size_empty_iff. destruct Hk as [v Hv].
    by rewrite Hsize, lookup_empty in Hv. }
  split.
  - intros Hn. eexists. unfold user_routes.create_user. rewrite Ht. cbn [negb].
    unfold UserSchema.load. rewrite Schema_load_rejected.
    + split; [reflexivity |]. by apply unknown_fields_lookup.
    + intros He. pose proof (unknown_fields_lookup UserSchema.load_fields m k Hk Hn) as Hl.
      by rewrite He, lookup_empty in Hl.
  - intros Hn [user Hget]. eexists. unfold user_routes.update_user.
    rewrite Hget, Ht. cbn [negb].
    unfold UserUpdateSchema.load. rewrite Schema_load_rejected.
    + split; [reflexivity |]. by apply unknown_fields_lookup.
    + intros He.
      pose proof (unknown_fields_lookup UserUpdateSchema.load_fields m k Hk Hn) as Hl.
      by rewrite He, lookup_empty in Hl.
Qed.

Section Acceptance.
Context `{Platform}.

Lemma name_accepted raw :
  ¬ name_violation raw →
  ∃ s, raw = Some (JStr s) ∧ declare UserSchema.name (fmap kw_name) raw = inr [kw_name s].
Proof.
  intros Hv. destruct raw as [[| | | |s| |]|]; try (by destruct Hv).
  exists s. split; [done |]. simpl in Hv.
  unfold declare, load_field. simpl.
  unfold validate_.Length, validate_.Regexp. simpl.
  rewrite !bool_decide_eq_false_2 by (intros ?; apply Hv; auto). simpl.
  rewrite (proj2 (name_pattern_iff s)); [done |].
  split; [intros ->; apply Hv; left; simpl; lia |].
  apply Forall_forall. intros c Hc.
  destruct (is_alpha c) eqn:Ha; [done |]. destruct (is_space c) eqn:Hs; [done |].
  destruct Hv. right. right. by exists c.
Qed.

Lemma password_accepted raw :
  ¬ password_violation raw →
  ∃ s, raw = Some (JStr s)
       ∧ declare UserSchema.password (fmap kw_password) raw = inr [kw_password s].
Proof.
  intros Hv. destruct raw as [[| | | |s| |]|]; try (by destruct Hv).
  exists s. split; [done |]. simpl in Hv.
  unfold declare, load_field. simpl. unfold validate_.Length. simpl.
  by rewrite !bool_decide_eq_false_2 by (intros ?; apply Hv; auto).
Qed.

Lemma email_accepted raw :
  ¬ email_violation raw →
  ∃ s, raw = Some (JStr s)
       ∧ declare UserSchema.email (fmap kw_email) raw = inr [kw_email s]
       ∧ (s = [] ∨ re_match email_pattern s = true).
Proof.
  intros Hv. destruct raw as [[| | | |s| |]|]; try (by destruct Hv).
  exists s. split; [done |]. simpl in Hv. split.
  - unfold declare, load_field. simpl.
    destruct (email_validator s); [| destruct Hv; by left].
    unfold validate_.Length. simpl.
    by rewrite bool_decide_eq_false_2 by (intros ?; apply Hv; auto).
  - destruct s as [|c s]; [by left | right].
    destruct (re_match email_pattern (c :: s)) eqn:Hre; [done |].
    destruct Hv. right. by right.
Qed.

Lemma age_in_range v :
  v ≠ JNull → ¬ age_violation (Some v) →
  ∃ z, fields.Int_deserialize v = Some z ∧ 1 ≤ z ≤ 150.
Proof.
  intros Hnull Hv. destruct (fields.Int_deserialize v) as [z|] eqn:Hd.
  - exists z. split; [done |].
    destruct (decide (1 ≤ z ≤ 150)) as [|Hn]; [done |].
    destruct Hv. destruct v; try done; intros z' Hz'; simplify_eq; lia.
  - destruct Hv. destruct v; try done; intros z' Hz'; congruence.
Qed.

Lemma age_accepted raw :
  ¬ age_violation raw →
  declare UserSchema.age (λ v, Some (kw_age v)) raw
  = inr match raw with
        | None => []
        | Some JNull => [kw_age None]
        | Some v => [kw_age (fields.Int_deserialize v)]
        end.
Proof.
  intros Hv. destruct raw as [v|]; [| done].
  assert (v = JNull ∨ v ≠ JNull) as [-> | Hnull]
    by (destruct v; (by left) || (by right)); [done |].
  destruct (age_in_range v Hnull Hv) as (z & Hz & Hr).
  unfold declare, load_field.
  change (deserialize UserSchema.age v) with (fields.Int_deserialize v).
  rewrite Hz. simpl. unfold validate_.Range.
  destruct (z <? 1) eqn:H1; [apply Z.ltb_lt in H1; lia |].
  destruct (150 <? z) eqn:H2; [apply Z.ltb_lt in H2; lia |].
  simpl. by destruct v.
Qed.

End Acceptance.

(** X19: The create schema loads a body without undeclared keys exactly when
    the body breaks no create rule, and the loaded data are then the
    values of the body in the order of declaration. *)
Theorem create_schema_accepts `{Platform} (m : gmap string json) :
  (∀ k, is_Some (m !! k) → k ∈ ["name"; "email"; "age"; "password"]) →
  (returns (UserSchema.load (JDict m)) ↔ ¬ violates_create_rules (JDict m))
  ∧ (¬ violates_create_rules (JDict m) →
     ∃ n e p,
       m !! "name" = Some (JStr n) ∧ m !! "email" = Some (JStr e)
       ∧ m !! "password" = Some (JStr p)
       ∧ UserSchema.load (JDict m)
         = Ok (kw_name n :: kw_email e
               :: match m !! "age" with
                  | None => []
                  | Some JNull => [kw_age None]
                  | Some v => [kw_age (fields.Int_deserialize v)]
                  end ++ [kw_password p])).
Proof.
  intros Hkeys.
  assert (¬ violates_create_rules (JDict m) →
     ∃ n e p,
       m !! "name" = Some (JStr n) ∧ m !! "email" = Some (JStr e)
       ∧ m !! "password" = Some (JStr p)
       ∧ UserSchema.load (JDict m)
         = Ok (kw_name n :: kw_email e
               :: match m !! "age" with
                  | None => []
                  | Some JNull => [kw_age None]
                  | Some v => [kw_age (fields.Int_deserialize v)]
                  end ++ [kw_password p])) as Hacc.
  { intros Hv. simpl in Hv.
    destruct (name_accepted (m !! "name")) as (n & Hn & Hdn); [tauto |].
    destruct (email_accepted (m !! "email")) as (e & He & Hde & Hre); [tauto |].
    destruct (password_accepted (m !! "password")) as (p & Hp & Hdp); [tauto |].
    pose proof (age_accepted (m !! "age")) as Hda.
    exists n, e, p. repeat (split; [done |]).
    unfold UserSchema.load. rewrite Schema_load_accepted.
    - cbn [field_values flat_map UserSchema.load_fields].
      rewrite Hdn, Hde, Hdp, Hda by tauto. rewrite app_nil_r. simpl.
      unfold validate_email_format. cbn [get_email omap head].
      change (get_email (kw_name n :: kw_email e :: _)) with (Some e).
      destruct Hre as [-> | Hre]; [done |]. rewrite Hre.
      by rewrite andb_false_r.
    - rewrite (proj2 (unknown_fields_empty _ _)) by done.
      rewrite (right_id_L ∅ (∪)). apply field_messages_empty.
      unfold UserSchema.load_fields. intros k f.
      rewrite !elem_of_cons, elem_of_nil.
      intros [[= -> ->] | [[= -> ->] | [[= -> ->] | [[= -> ->] | []]]]];
        eexists; [apply Hdn | apply Hde | apply Hda; tauto | apply Hdp]. }
  split; [| exact Hacc]. split.
  - intros [data Hload] Hv.
    destruct (UserSchema_load_violation (JDict m) Hv) as (errs & Hr & _).
    congruence.
  - intros Hv. destruct (Hacc Hv) as (n & e & p & _ & _ & _ & Hload).
    by eexists.
Qed.

(** X20: The login schema loads exactly the bodies with a text under [email]
    that the e-mail validator accepts, a text under [password] and no
    other key, and loads them as they are. *)
Theorem login_schema_accepts `{Platform} (m : gmap string json) (data : dict) :
  UserLoginSchema.load (JDict m) = Ok data ↔
  ∃ e p, m !! "email" = Some (JStr e) ∧ email_validator e = true
         ∧ m !! "password" = Some (JStr p)
         ∧ (∀ k, is_Some (m !! k) → k ∈ ["email"; "password"])
         ∧ data = [kw_email e; kw_password p].
Proof.
  unfold UserLoginSchema.load, Schema_load. cbv zeta.
  case_bool_decide as Herrs.
  - apply map_positive_l in Herrs as Hfm.
    rewrite Hfm, (left_id_L ∅ (∪)) in Herrs.
    pose proof (field_messages_accepted _ _ Hfm) as Hacc.
    destruct (Hacc "email" (declare UserLoginSchema.email (fmap kw_email)))
      as [kwe Hke]; [apply list_elem_of_here |].
    destruct (Hacc "password" (declare UserLoginSchema.password (fmap kw_password)))
      as [kwp Hkp]; [apply list_elem_of_further, list_elem_of_here |].
    cbn [field_values flat_map UserLoginSchema.load_fields].
    rewrite Hke, Hkp, app_nil_r.
    unfold declare, load_field in Hke, Hkp.
    destruct (m !! "email") as [[| | | |e| |]|] eqn:He; try done.
    destruct (m !! "password") as [[| | | |p| |]|] eqn:Hp; try done.
    simpl in Hke, Hkp. injection Hkp as <-.
    destruct (email_validator e) eqn:Hv; [| done]. injection Hke as <-.
    split.
    + intros [= <-]. exists e, p. repeat (split; [done |]).
      split; [| done]. by apply (unknown_fields_empty UserLoginSchema.load_fields).
    + by intros (e' & p' & [= <-] & _ & [= <-] & _ & ->).
  - split; [done |].
    intros (e & p & He & Hv & Hp & Hkeys & ->). destruct Herrs.
    rewrite (proj2 (unknown_fields_empty UserLoginSchema.load_fields m)) by done.
    rewrite (right_id_L ∅ (∪)). apply field_messages_empty.
    unfold UserLoginSchema.load_fields. intros k f.
    rewrite !elem_of_cons, elem_of_nil.
    intros [[= -> ->] | [[= -> ->] | []]]; unfold declare, load_field.
    + rewrite He. simpl. rewrite Hv. by eexists.
    + rewrite Hp. simpl. by eexists.
Qed.

(** ** The e-mail pattern *)

Lemma lang_cat_inv r1 r2 s :
  lang (Cat r1 r2) s ↔ ∃ s1 s2, s = s1 ++ s2 ∧ lang r1 s1 ∧ lang r2 s2.
Proof.
  split.
  - inversion 1; subst. by eexists _, _.
  - intros (s1 & s2 & -> & H1 & H2). by constructor.
Qed.

Lemma lang_cls_inv p s : lang (Cls p) s ↔ ∃ c, s = [c] ∧ p c = true.
Proof.
  split.
  - inversion 1; subst. by eexists.
  - intros (c & -> & Hc). by constructor.
Qed.

Lemma lang_chr_inv a s : lang (Chr a) s ↔ s = [N_of_ascii a].
Proof.
  unfold Chr. rewrite lang_cls_inv. split.
  - intros (c & -> & Hc). apply N.eqb_eq in Hc. by rewrite Hc.
  - intros ->. eexists. split; [done |]. apply N.eqb_refl.
Qed.

Lemma lang_star_cls_iff p s : lang (Star (Cls p)) s ↔ Forall (λ c, p c = true) s.
Proof. split; [apply lang_star_cls | apply lang_star_cls_all]. Qed.

Lemma lang_plus_cls_iff p s :
  lang (Plus (Cls p)) s ↔ s ≠ [] ∧ Forall (λ c, p c = true) s.
Proof.
  split; [apply lang_plus_cls |].
  intros [Hne Hall]. destruct Hall as [|c s Hc Hall]; [done |].
  change (c :: s) with ([c] ++ s). unfold Plus.
  constructor; [by constructor | by apply lang_star_cls_all].
Qed.

Lemma lang_atleast2_cls_iff p s :
  lang (AtLeast2 (Cls p)) s ↔ (2 ≤ length s)%nat ∧ Forall (λ c, p c = true) s.
Proof.
  unfold AtLeast2. rewrite lang_cat_inv. split.
  - intros (s1 & s2 & -> & (c1 & -> & Hc1)%lang_cls_inv
            & (s3 & s4 & -> & (c2 & -> & Hc2)%lang_cls_inv
               & Hall%lang_star_cls_iff)%lang_cat_inv).
    split; [simpl; lia |]. by repeat constructor.
  - intros [Hlen Hall].
    destruct Hall as [|c1 s Hc1 Hall]; [simpl in Hlen; lia |].
    destruct Hall as [|c2 s Hc2 Hall]; [simpl in Hlen; lia |].
    exists [c1], (c2 :: s). split; [done |]. split; [by constructor |].
    change (c2 :: s) with ([c2] ++ s).
    constructor; [by constructor | by apply lang_star_cls_all].
Qed.

(** X21: [validate_email_format] accepts exactly the texts made of a local
    part, an [@], a domain, a dot and at least two letters, with nothing
    after them but, possibly, one newline. *)
Theorem validate_email_format_iff (email : str) :
  auth_utils.validate_email_format email = true ↔
  ∃ local domain tld tail,
    email = local ++ lit "@" ++ domain ++ lit "." ++ tld ++ tail
    ∧ local ≠ []
    ∧ Forall (λ c, is_alpha c || is_digit c || one_of "._%+-" c = true) local
    ∧ domain ≠ []
    ∧ Forall (λ c, is_alpha c || is_digit c || one_of ".-" c = true) domain
    ∧ (2 ≤ length tld)%nat
    ∧ Forall (λ c, is_alpha c = true) tld
    ∧ (tail = [] ∨ tail = [10%N]).
Proof.
  unfold auth_utils.validate_email_format. rewrite re_match_iff.
  assert (∀ s, lang email_pattern s ↔
    ∃ local domain tld,
      s = local ++ lit "@" ++ domain ++ lit "." ++ tld
      ∧ local ≠ []
      ∧ Forall (λ c, is_alpha c || is_digit c || one_of "._%+-" c = true) local
      ∧ domain ≠ []
      ∧ Forall (λ c, is_alpha c || is_digit c || one_of ".-" c = true) domain
      ∧ (2 ≤ length tld)%nat
      ∧ Forall (λ c, is_alpha c = true) tld) as Hlang.
  { intros s. unfold email_pattern. rewrite lang_cat_inv. split.
    - intros (local & s1 & -> & [Hl1 Hl2]%lang_plus_cls_iff
              & (at_ & s2 & -> & ->%lang_chr_inv
                 & (domain & s3 & -> & [Hd1 Hd2]%lang_plus_cls_iff
                    & (dot & tld & -> & ->%lang_chr_inv
                       & [Ht1 Ht2]%lang_atleast2_cls_iff)%lang_cat_inv
                   )%lang_cat_inv)%lang_cat_inv).
      by exists local, domain, tld.
    - intros (local & domain & tld & -> & Hl1 & Hl2 & Hd1 & Hd2 & Ht1 & Ht2).
      exists local, (lit "@" ++ domain ++ lit "." ++ tld).
      split; [done |]. split; [by apply lang_plus_cls_iff |].
      apply lang_cat_inv. exists (lit "@"), (domain ++ lit "." ++ tld).
      split; [done |]. split; [by apply lang_chr_inv |].
      apply lang_cat_inv. exists domain, (lit "." ++ tld).
      split; [done |]. split; [by apply lang_plus_cls_iff |].
      apply lang_cat_inv. exists (lit "."), tld.
      split; [done |]. split; [by apply lang_chr_inv |].
      by apply lang_atleast2_cls_iff. }
  split.
  - intros [Hl | (s' & -> & Hl)]; apply Hlang in Hl
      as (local & domain & tld & -> & Hrest).
    + exists local, domain, tld, []. rewrite app_nil_r.
      split; [done |]. repeat (split; [tauto |]). by left.
    + exists local, domain, tld, [10%N].
      split; [by rewrite <- !app_assoc |]. repeat (split; [tauto |]). by right.
  - intros (local & domain & tld & tail & -> & Hl1 & Hl2 & Hd1 & Hd2 & Ht1 & Ht2
            & [-> | ->]).
    + left. apply Hlang. exists local, domain, tld. by rewrite app_nil_r.
    + right. exists (local ++ lit "@" ++ domain ++ lit "." ++ tld).
      split; [by rewrite <- !app_assoc |].
      apply Hlang. by exists local, domain, tld.
Qed.

(** ** Sanitizing *)

Lemma replace_avoids (bad old : N) (new s : str) :
  bad ∉ new → bad = old ∨ bad ∉ s → bad ∉ replace old new s.
Proof.
  intros Hnew Hs. unfold replace. rewrite list_elem_of_bind.
  intros (c & Hin & Hc). destruct (c =? old)%N eqn:Heq.
  - done.
  - apply list_elem_of_singleton in Hin as ->.
    destruct Hs as [-> | Hs]; [| done]. by rewrite N.eqb_refl in Heq.
Qed.

Lemma replace_absent (old : N) (new s : str) : old ∉ s → replace old new s = s.
Proof.
  unfold replace. induction s as [|c s IH]; [done |].
  intros Hn. apply not_elem_of_cons in Hn as [Hc Hs]. csimpl.
  destruct (c =? old)%N eqn:Heq; [apply N.eqb_eq in Heq; congruence |].
  simpl. f_equal. by apply IH.
Qed.

Lemma lstrip_suffix s : lstrip s `suffix_of` s.
Proof.
  induction s as [|c s IH]; [done |]. simpl.
  destruct (is_space c); [by apply suffix_cons_r | done].
Qed.

Lemma strip_elem c s : c ∈ strip s → c ∈ s.
Proof.
  unfold strip, rstrip. intros Hc.
  rewrite elem_of_reverse in Hc.
  apply (λ H, elem_of_suffix _ _ _ H (lstrip_suffix _)) in Hc.
  rewrite elem_of_reverse in Hc.
  by apply (λ H, elem_of_suffix _ _ _ H (lstrip_suffix _)) in Hc.
Qed.

(** X22: No text that [sanitize_input] returns has an angle bracket or a
    quotation mark in it. *)
Theorem sanitize_input_output (input_string : str) (c : N) :
  c ∈ sanitize_input input_string →
  c ≠ 60%N ∧ c ≠ 62%N ∧ c ≠ 34%N ∧ c ≠ 39%N.
Proof.
  unfold sanitize_input. destruct input_string as [|c0 s].
  { by intros ?%not_elem_of_nil. }
  cbv zeta. intros Hc%strip_elem.
  assert (∀ bad new, bad ∉ lit new ↔ bool_decide (bad ∉ lit new) = true) as Hdec
    by (intros; by rewrite bool_decide_eq_true).
  repeat split; intros ->; revert Hc.
  - apply replace_avoids; [by apply Hdec | right].
    apply replace_avoids; [by apply Hdec | right].
    apply replace_avoids; [by apply Hdec | right].
    apply replace_avoids; [by apply Hdec | by left].
  - apply replace_avoids; [by apply Hdec | right].
    apply replace_avoids; [by apply Hdec | right].
    apply replace_avoids; [by apply Hdec | by left].
  - apply replace_avoids; [by apply Hdec | right].
    apply replace_avoids; [by apply Hdec | by left].
  - apply replace_avoids; [by apply Hdec | by left].
Qed.

Lemma lstrip_head s :
  (∀ c, head s = Some c → is_space c = false) → lstrip s = s.
Proof. destruct s as [|c s]; [done |]. intros Hc. simpl. by rewrite Hc. Qed.

(** X23: A text with none of the five characters and no white space at either
    end comes back as it is. *)
Theorem sanitize_input_plain (input_string : str) :
  Forall (λ c, c ∉ [38; 60; 62; 34; 39]%N) input_string →
  (∀ c, head input_string = Some c → is_space c = false) →
  (∀ c, last input_string = Some c → is_space c = false) →
  sanitize_input input_string = input_string.
Proof.
  intros Hplain Hhead Hlast. unfold sanitize_input.
  destruct input_string as [|c0 s] eqn:Hs; [done |]. rewrite <- Hs in *.
  cbv zeta.
  assert (∀ bad, bad ∈ [38; 60; 62; 34; 39]%N → bad ∉ input_string) as Hbad.
  { intros bad Hb Hin. rewrite Forall_forall in Hplain. by apply (Hplain bad). }
  rewrite (replace_absent 38) by (apply Hbad; set_solver).
  rewrite (replace_absent 60) by (apply Hbad; set_solver).
  rewrite (replace_absent 62) by (apply Hbad; set_solver).
  rewrite (replace_absent 34) by (apply Hbad; set_solver).
  rewrite (replace_absent 39) by (apply Hbad; set_solver).
  unfold strip, rstrip. rewrite (lstrip_head input_string Hhead).
  rewrite lstrip_head; [apply reverse_involutive |].
  intros c. rewrite head_reverse. apply Hlast.
Qed.

(** ** The guard of the protected routes *)

Lemma split_app (sep : N) (a b : str) :
  sep ∉ a → split sep (a ++ sep :: b) = a :: split sep b.
Proof.
  induction a as [|c a IH]; intros Hn.
  - simpl. by rewrite N.eqb_refl.
  - apply not_elem_of_cons in Hn as [Hc Ha]. simpl.
    rewrite IH by done.
    destruct (c =? sep)%N eqn:Heq; [| done].
    apply N.eqb_eq in Heq. congruence.
Qed.

(** X24: [token_required] lets a request through exactly on a payload that the
    library decoded from the second word of the header, and hands its
    [user_id] to the route. *)
Theorem token_required_passes `{Platform} (f : json → response)
    (headers : gmap string str) (w : ambient)
    (auth_header token : str) (payload : gmap string json)
    (current_user_id : json) :
  headers !! "Authorization" = Some auth_header →
  split 32 auth_header !! 1%nat = Some token →
  token ≠ [] →
  jwt_decode token SECRET_KEY (utcnow w) = Ok payload →
  payload !! "user_id" = Some current_user_id →
  auth_utils.token_required f headers w = f current_user_id.
Proof.
  intros Hh Hs Hne Hd Hp. unfold auth_utils.token_required.
  rewrite Hh, Hs. destruct token as [|c token]; [done |].
  unfold auth_utils.decode_token. rewrite Hd. cbn [from_option].
  assert (truthy (JDict payload) = true) as ->.
  { unfold truthy. apply negb_true_iff, bool_decide_eq_false.
    intros Hsize%map_size_empty_inv. by rewrite Hsize, lookup_empty in Hp. }
  cbn [negb mbind option_bind]. by rewrite Hp.
Qed.

(** X25: Every answer of [token_required] is a 401 of its own or the answer of
    the route on the [user_id] of a decoded payload. *)
Theorem token_required_sound `{Platform} (f : json → response)
    (headers : gmap string str) (w : ambient) :
  (∃ err msg,
      auth_utils.token_required f headers w
      = auth_utils.unauthenticated err msg)
  ∨ (∃ auth_header token payload current_user_id,
        headers !! "Authorization" = Some auth_header
        ∧ split 32 auth_header !! 1%nat = Some token
        ∧ token ≠ []
        ∧ jwt_decode token SECRET_KEY (utcnow w) = Ok payload
        ∧ payload !! "user_id" = Some current_user_id
        ∧ auth_utils.token_required f headers w = f current_user_id).
Proof.
  unfold auth_utils.token_required.
  destruct (headers !! "Authorization") as [auth_header|] eqn:Hh;
    [| left; by eexists _, _].
  destruct (split 32 auth_header !! 1%nat) as [token|] eqn:Hs;
    [| left; by eexists _, _].
  destruct token as [|c token]; [left; by eexists _, _ |].
  unfold auth_utils.decode_token.
  destruct (jwt_decode (c :: token) SECRET_KEY (utcnow w)) as [payload|e] eqn:Hd.
  - cbn [from_option].
    destruct (truthy (JDict payload)); cbn [negb]; [| left; by eexists _, _].
    cbn [mbind option_bind].
    destruct (payload !! "user_id") as [current_user_id|] eqn:Hp;
      [| left; by eexists _, _].
    right. by exists auth_header, (c :: token), payload, current_user_id.
  - left. destruct e; cbn; by eexists _, _.
Qed.

(** X26: The first word of the header is not looked at: any scheme word gives
    the answer that [Bearer] gives. *)
Theorem token_required_scheme_ignored `{Platform} (f : json → response)
    (headers : gmap string str) (w : ambient) (scheme rest : str) :
  32%N ∉ scheme →
  auth_utils.token_required f
    (<[ "Authorization" := scheme ++ 32%N :: rest ]> headers) w
  = auth_utils.token_required f
      (<[ "Authorization" := lit "Bearer" ++ 32%N :: rest ]> headers) w.
Proof.
  intros Hs. unfold auth_utils.token_required.
  rewrite !lookup_insert_eq. rewrite (split_app 32 scheme) by done.
  rewrite (split_app 32 (lit "Bearer")); [done |].
  by apply (bool_decide_eq_true_1 (32%N ∉ lit "Bearer")).
Qed.

(** ** Generated passwords *)

(** X27: A generated password has the length asked for, is made of the
    characters of the alphabet, and with 6 to 128 characters it is a
    password that the create schema accepts. *)
Theorem generate_random_password_accepted (choice : nat → str → N)
    (length : nat) :
  (∀ i l, l ≠ [] → choice i l ∈ l) →
  let password := generate_random_password choice length in
  List.length password = length
  ∧ Forall (λ c, is_alpha c || is_digit c || one_of "!@#$%^&*" c = true) password
  ∧ ((6 ≤ length ≤ 128)%nat →
     load_field UserSchema.password (Some (JStr password))
     = Value (Some password)).
Proof.
  intros Hchoice password.
  assert (List.length password = length) as Hlen.
  { unfold password, generate_random_password.
    by rewrite length_fmap, length_seq. }
  split; [done |]. split.
  - unfold password, generate_random_password.
    apply Forall_fmap, Forall_forall. intros i _. simpl.
    assert (Forall (λ c, is_alpha c || is_digit c || one_of "!@#$%^&*" c = true)
              password_characters) as Hall.
    { apply (bool_decide_eq_true_1 (Forall _ _)). vm_compute. reflexivity. }
    rewrite Forall_forall in Hall. apply Hall, Hchoice. done.
  - intros Hn. unfold load_field. simpl. unfold validate_.Length. simpl.
    rewrite Hlen. by rewrite !bool_decide_eq_false_2 by lia.
Qed.

(** ** The sample users *)

Lemma unique_ids_snoc (db : table) u :
  User.id u = next_id db → unique_ids db → unique_ids (db ++ [u]).
Proof.
  intros Hid Hids. unfold unique_ids. rewrite fmap_app. apply NoDup_app.
  split; [done | split; [| apply NoDup_singleton]].
  intros i (r & -> & Hr)%list_elem_of_fmap [= Heq]%list_elem_of_singleton.
  apply next_id_fresh in Hr. lia.
Qed.

Lemma unique_emails_snoc (db : table) u :
  first_by_email (User.email u) db = None →
  unique_emails db → unique_emails (db ++ [u]).
Proof.
  intros Hfresh Hemails. unfold unique_emails. rewrite fmap_app. apply NoDup_app.
  split; [done | split; [| apply NoDup_singleton]].
  intros e (r & -> & Hr)%list_elem_of_fmap [= Heq]%list_elem_of_singleton.
  by eapply first_by_email_None.
Qed.

Lemma first_by_email_prefix e (db db' : table) :
  db `prefix_of` db' →
  is_Some (first_by_email e db) → is_Some (first_by_email e db').
Proof.
  intros [k ->] [u Hu]. unfold first_by_email in *. rewrite filter_app.
  destruct (filter _ db); [done |]. by eexists.
Qed.

Lemma add_sample_users_present `{Platform} users i w (db : table) :
  (∀ name email age password, (name, email, age, password) ∈ users →
     is_Some (first_by_email (lit email) db)) →
  add_sample_users users i w db = Ok db.
Proof.
  revert i. induction users as [|[[[name email] age] password] users IH];
    intros i Hall; [done |].
  simpl. destruct (Hall name email age password) as [u ->]; [by left |].
  apply IH. intros n e a p Hin. apply (Hall n e a p). by right.
Qed.

Lemma add_sample_users_adds `{Platform} users i w (db : table) :
  (∀ j name email age password, (name, email, age, password) ∈ users →
     ∃ hashed, auth_utils.hash_password (lit password) (w j) = Ok hashed) →
  ∃ db', add_sample_users users i w db = Ok db'
    ∧ db `prefix_of` db'
    ∧ (∀ name email age password, (name, email, age, password) ∈ users →
         is_Some (first_by_email (lit email) db'))
    ∧ (unique_ids db → unique_ids db')
    ∧ (unique_emails db → unique_emails db').
Proof.
  revert i db. induction users as [|[[[name email] age] password] users IH];
    intros i db Hhash.
  { exists db. repeat split; try done. by intros ???? ?%not_elem_of_nil. }
  assert (∀ j n e a p, (n, e, a, p) ∈ users →
            ∃ hashed, auth_utils.hash_password (lit p) (w j) = Ok hashed) as Hrest.
  { intros j n e a p Hin. apply (Hhash j n e a p). by right. }
  simpl. destruct (first_by_email (lit email) db) as [existing|] eqn:Hfirst.
  - destruct (IH (S i) db Hrest) as (db' & Hrun & Hpre & Hin & Hids & Hemails).
    exists db'. split; [done |]. split; [done |]. split; [| done].
    intros n e a p [Heq | Hu]%elem_of_cons; [| by apply (Hin n e a p)].
    simplify_eq. apply (first_by_email_prefix _ db); [done |]. by rewrite Hfirst.
  - destruct (Hhash i name email age password) as [hashed ->]; [by left |].
    cbn [mbind result_bind].
    set (user := User.mk (next_id db) (lit name) (lit email) (Some age) hashed
                   (default_created_at (w i)) (default_updated_at (w i)) true).
    change (UserMethods.save _ (w i) db).2 with (db ++ [user]).
    destruct (IH (S i) (db ++ [user]) Hrest)
      as (db' & Hrun & Hpre & Hin & Hids & Hemails).
    exists db'. split; [done |]. split.
    { etrans; [| exact Hpre]. by apply prefix_app_r. }
    split; [| split].
    + intros n e a p [Heq | Hu]%elem_of_cons; [| by apply (Hin n e a p)].
      simplify_eq. apply (first_by_email_prefix _ (db ++ [user])); [done |].
      unfold first_by_email. rewrite head_filter_snoc.
      destruct (head _); [done |]. by rewrite decide_True.
    + intros Hu. by apply Hids, unique_ids_snoc.
    + intros Hu. by apply Hemails, unique_emails_snoc.
Qed.

(** X28: When the library hashes the three passwords, [create_sample_users]
    commits a table that extends the old one, has a row for each sample
    email and keeps ids and emails unique; run on that table again, it
    changes nothing. *)
Theorem create_sample_users_idempotent `{Platform} (w : nat → ambient)
    (db : table) :
  (∀ j password, password ∈ ["password123"; "password456"; "password789"] →
     ∃ hashed, auth_utils.hash_password (lit password) (w j) = Ok hashed) →
  ∃ db', create_sample_users w db = Ok db'
    ∧ db `prefix_of` db'
    ∧ (∀ email, email ∈ ["john@example.com"; "jane@example.com"; "bob@example.com"] →
         is_Some (first_by_email (lit email) db'))
    ∧ (unique_ids db → unique_ids db')
    ∧ (unique_emails db → unique_emails db')
    ∧ (∀ w', create_sample_users w' db' = Ok db').
Proof.
  intros Hhash. unfold create_sample_users.
  destruct (add_sample_users_adds sample_users 0 w db)
    as (db' & Hrun & Hpre & Hin & Hids & Hemails).
  { intros j n e a p Hu. apply Hhash. unfold sample_users in Hu.
    rewrite !elem_of_cons, elem_of_nil in Hu. rewrite !elem_of_cons.
    destruct Hu as [Hu | [Hu | [Hu | []]]]; simplify_eq; auto. }
  exists db'. split; [done |]. split; [done |]. split; [| split; [done | split; [done |]]].
  - intros email He. rewrite !elem_of_cons, elem_of_nil in He.
    destruct He as [-> | [-> | [-> | []]]].
    + apply (Hin "John Doe" _ 30 "password123"). by left.
    + apply (Hin "Jane Smith" _ 25 "password456"). right. by left.
    + apply (Hin "Bob Johnson" _ 35 "password789"). right. right. by left.
  - intros w'. apply add_sample_users_present. intros n e a p Hu.
    by apply (Hin n e a p).
Qed.

(** ** Runs on the sample platform *)

Lemma Demo_unique_ids : unique_ids Demo.users.
Proof. apply (bool_decide_eq_true_1 (NoDup _)). vm_compute. reflexivity. Qed.

Lemma Demo_unique_emails : unique_emails Demo.users.
Proof. apply (bool_decide_eq_true_1 (NoDup _)). vm_compute. reflexivity. Qed.

Lemma Demo_choice_elem i (l : str) : l ≠ [] → Demo.choice i l ∈ l.
Proof.
  intros Hl. unfold Demo.choice.
  destruct (l !! ((i * 7) `mod` length l)%nat) as [c|] eqn:Hc.
  - simpl. by eapply list_elem_of_lookup_2.
  - apply lookup_ge_None in Hc.
    assert (length l ≠ 0%nat) by (by destruct l).
    pose proof (Nat.mod_upper_bound (i * 7) (length l)). lia.
Qed.

Section ExtraRun.
#[local] Existing Instance Sample.platform.

Lemma create_user_inserts_witness :
  get_name Demo.data = Some (lit "Cy Young")
  ∧ get_email Demo.data = Some (lit "cy@x.com")
  ∧ get_password Demo.data = Some (lit "secret1")
  ∧ first_by_email (lit "cy@x.com") Demo.users = None
  ∧ auth_utils.hash_password (lit "secret1") (Sample.world 300) = Ok Sample.digest
  ∧ UserService.create_user Demo.data (Sample.world 300) Demo.users
    = (Ok Demo.cy, Demo.users ++ [Demo.cy])
  ∧ UserService.get_user_by_id 3 (Demo.users ++ [Demo.cy]) = Some Demo.cy
  ∧ UserService.get_user_by_email (lit "cy@x.com") (Demo.users ++ [Demo.cy])
    = Some Demo.cy.
Proof.
  do 5 (split; [reflexivity |]).
  pose proof (create_user_inserts Demo.data (Sample.world 300) Demo.users
                (lit "Cy Young") (lit "cy@x.com") (lit "secret1") Sample.digest
                eq_refl eq_refl eq_refl eq_refl eq_refl) as Hrun.
  cbv zeta in Hrun. destruct Hrun as (Hc & Hid & Hemail & _).
  split; [exact Hc |]. split; [exact Hid | exact Hemail].
Defined.

Lemma create_user_keeps_constraints_witness :
  unique_ids Demo.users ∧ unique_emails Demo.users
  ∧ unique_ids (UserService.create_user Demo.data (Sample.world 300) Demo.users).2
  ∧ unique_emails (UserService.create_user Demo.data (Sample.world 300) Demo.users).2
  ∧ Demo.users
    `prefix_of` (UserService.create_user Demo.data (Sample.world 300) Demo.users).2.
Proof.
  split; [exact Demo_unique_ids |]. split; [exact Demo_unique_emails |].
  exact (create_user_keeps_constraints Demo.data (Sample.world 300) Demo.users
           Demo_unique_ids Demo_unique_emails).
Defined.

Lemma update_user_keeps_constraints_witness :
  NoDup (key <$> [kw_email (lit "bobby@x.com"); kw_age (Some 36)])
  ∧ unique_ids Demo.users ∧ unique_emails Demo.users
  ∧ unique_ids
      (UserService.update_user 2 [kw_email (lit "bobby@x.com"); kw_age (Some 36)]
         (Sample.world 300) Demo.users).2
  ∧ unique_emails
      (UserService.update_user 2 [kw_email (lit "bobby@x.com"); kw_age (Some 36)]
         (Sample.world 300) Demo.users).2
  ∧ User.id <$> (UserService.update_user 2
                   [kw_email (lit "bobby@x.com"); kw_age (Some 36)]
                   (Sample.world 300) Demo.users).2
    = User.id <$> Demo.users.
Proof.
  assert (NoDup (key <$> [kw_email (lit "bobby@x.com"); kw_age (Some 36)])) as Hkeys.
  { apply (bool_decide_eq_true_1 (NoDup _)). vm_compute. reflexivity. }
  split; [exact Hkeys |].
  split; [exact Demo_unique_ids |]. split; [exact Demo_unique_emails |].
  exact (update_user_keeps_constraints 2 _ (Sample.world 300) Demo.users
           Hkeys Demo_unique_ids Demo_unique_emails).
Defined.

Lemma delete_user_soft_witness :
  UserService.get_user_by_id 1 Demo.users = Some Sample.ann
  ∧ UserService.delete_user 1 (Sample.world 200) Demo.users
    = (Ok true, [Sample.ann_deleted; Demo.bob])
  ∧ UserService.get_user_by_id 1 [Sample.ann_deleted; Demo.bob] = None
  ∧ query_get 1 [Sample.ann_deleted; Demo.bob] = Some Sample.ann_deleted
  ∧ UserService.delete_user 1 (Sample.world 300) [Sample.ann_deleted; Demo.bob]
    = (Raise (ValueError "User not found"), [Sample.ann_deleted; Demo.bob]).
Proof.
  split; [reflexivity |].
  pose proof (delete_user_soft 1 (Sample.world 200) (Sample.world 300)
                Demo.users Sample.ann eq_refl) as Hrun.
  cbv zeta in Hrun. destruct Hrun as (Hd & Hg & _ & Hq & _ & _ & Hd2).
  split; [exact Hd |]. split; [exact Hg |]. split; [exact Hq | exact Hd2].
Defined.

Lemma delete_then_toggle_restores_witness :
  UserService.get_user_by_id 1 Demo.users = Some Sample.ann
  ∧ UserService.toggle_user_status 1 (Sample.world 300)
      (UserService.delete_user 1 (Sample.world 200) Demo.users).2
    = (Ok (User.setattr Sample.ann (kw_updated_at 300)),
       [User.setattr Sample.ann (kw_updated_at 300); Demo.bob])
  ∧ UserService.get_user_by_id 1
      [User.setattr Sample.ann (kw_updated_at 300); Demo.bob]
    = Some (User.setattr Sample.ann (kw_updated_at 300)).
Proof.
  split; [reflexivity |].
  exact (delete_then_toggle_restores 1 (Sample.world 200) (Sample.world 300)
           Demo.users Sample.ann eq_refl).
Defined.

Lemma toggle_twice_witness :
  query_get 1 [Sample.ann_deleted; Demo.bob] = Some Sample.ann_deleted
  ∧ UserService.toggle_user_status 1 (Sample.world 400)
      (UserService.toggle_user_status 1 (Sample.world 300)
         [Sample.ann_deleted; Demo.bob]).2
    = (Ok (User.setattr Sample.ann_deleted (kw_updated_at 400)),
       [User.setattr Sample.ann_deleted (kw_updated_at 400); Demo.bob]).
Proof.
  split; [reflexivity |].
  exact (toggle_twice 1 (Sample.world 300) (Sample.world 400)
           [Sample.ann_deleted; Demo.bob] Sample.ann_deleted eq_refl).
Defined.

Lemma permanently_delete_removes_witness :
  query_get 1 [Sample.ann_deleted; Demo.bob] = Some Sample.ann_deleted
  ∧ UserService.permanently_delete_user 1 [Sample.ann_deleted; Demo.bob]
    = (Ok true, [Demo.bob])
  ∧ query_get 1 [Demo.bob] = None
  ∧ UserService.permanently_delete_user 1 [Demo.bob]
    = (Raise (ValueError "User not found"), [Demo.bob]).
Proof.
  split; [reflexivity |].
  pose proof (permanently_delete_removes 1 [Sample.ann_deleted; Demo.bob]
                Sample.ann_deleted eq_refl) as Hrun.
  cbv zeta in Hrun. destruct Hrun as (Hd & Hq & _ & _ & _ & Hd2).
  split; [exact Hd |]. split; [exact Hq | exact Hd2].
Defined.

Lemma get_user_count_after_create_witness :
  UserService.create_user Demo.data (Sample.world 300) Demo.users
  = (Ok Demo.cy, Demo.users ++ [Demo.cy])
  ∧ UserService.get_user_count (Demo.users ++ [Demo.cy])
    = S (UserService.get_user_count Demo.users).
Proof.
  split; [reflexivity |].
  exact (get_user_count_after_create Demo.data (Sample.world 300) Demo.users
           (Demo.users ++ [Demo.cy]) Demo.cy eq_refl).
Defined.

Lemma get_user_count_after_delete_witness :
  unique_ids Demo.users
  ∧ is_Some (UserService.get_user_by_id 1 Demo.users)
  ∧ S (UserService.get_user_count
         (UserService.delete_user 1 (Sample.world 200) Demo.users).2)
    = UserService.get_user_count Demo.users.
Proof.
  assert (is_Some (UserService.get_user_by_id 1 Demo.users)) as Hget
    by (by exists Sample.ann).
  split; [exact Demo_unique_ids |]. split; [exact Hget |].
  exact (get_user_count_after_delete 1 (Sample.world 200) Demo.users
           Demo_unique_ids Hget).
Defined.

Lemma create_then_authenticate_witness :
  UserService.create_user Demo.data (Sample.world 300) Demo.users
  = (Ok Demo.cy, Demo.users ++ [Demo.cy])
  ∧ get_password Demo.data = Some (lit "secret1")
  ∧ utf8_encode (lit "secret1") = Some (lit "secret1")
  ∧ (∀ h, bcrypt_hashpw (lit "secret1") (gensalt (Sample.world 300)) = Ok h →
          Forall (λ c, (c < 128)%N) h ∧ bcrypt_checkpw (lit "secret1") h = Ok true)
  ∧ UserService.authenticate_user (lit "cy@x.com") (lit "secret1")
      (Demo.users ++ [Demo.cy])
    = Ok (Some Demo.cy).
Proof.
  assert (∀ h, bcrypt_hashpw (lit "secret1") (gensalt (Sample.world 300)) = Ok h →
               Forall (λ c, (c < 128)%N) h
               ∧ bcrypt_checkpw (lit "secret1") h = Ok true) as Hlib.
  { intros h Hh. vm_compute in Hh. injection Hh as <-. split.
    - apply (bool_decide_eq_true_1 (Forall _ _)). vm_compute. reflexivity.
    - vm_compute. reflexivity. }
  split; [reflexivity |]. split; [reflexivity |]. split; [reflexivity |].
  split; [exact Hlib |].
  exact (create_then_authenticate Demo.data (Sample.world 300) Demo.users
           (Demo.users ++ [Demo.cy]) Demo.cy (lit "secret1") (lit "secret1")
           eq_refl eq_refl eq_refl Hlib).
Defined.

Lemma login_follows_service_witness :
  ({[ "email" := JStr (lit "ann@x.com"); "password" := JStr (lit "secret1") ]}
     : gmap string json) !! "email" = Some (JStr (lit "ann@x.com"))
  ∧ ({[ "email" := JStr (lit "ann@x.com"); "password" := JStr (lit "secret1") ]}
       : gmap string json) !! "password" = Some (JStr (lit "secret1"))
  ∧ (∀ u, u ∈ Demo.users → User.email u = lit "ann@x.com" →
          User.is_active u = true)
  ∧ auth_routes.login (Sample.credentials "ann@x.com" "secret1") Demo.users
    = {| content := Token (create_access_token 1); status := 200 |}.
Proof.
  assert (∀ u, u ∈ Demo.users → User.email u = lit "ann@x.com" →
               User.is_active u = true) as Hactive.
  { intros u Hu _. unfold Demo.users in Hu.
    rewrite !elem_of_cons, elem_of_nil in Hu. by destruct Hu as [-> | [-> | []]]. }
  split; [reflexivity |]. split; [reflexivity |]. split; [exact Hactive |].
  exact (login_follows_service Demo.users
           {[ "email" := JStr (lit "ann@x.com"); "password" := JStr (lit "secret1") ]}
           (lit "ann@x.com") (lit "secret1") eq_refl eq_refl Hactive).
Defined.

Lemma login_without_password_witness :
  ({[ "email" := JStr (lit "ann@x.com") ]} : gmap string json) !! "email"
  = Some (JStr (lit "ann@x.com"))
  ∧ ({[ "email" := JStr (lit "ann@x.com") ]} : gmap string json) !! "password"
    = None
  ∧ auth_routes.login (JDict {[ "email" := JStr (lit "ann@x.com") ]}) Demo.users
    = uncaught (KeyError "password")
  ∧ auth_routes.login (JDict {[ "email" := JStr (lit "ann@x.com") ]}) [Demo.bob]
    = {| content := Msg "Invalid credentials"; status := 401 |}.
Proof.
  split; [reflexivity |]. split; [reflexivity |]. split.
  - exact (login_without_password Demo.users {[ "email" := JStr (lit "ann@x.com") ]}
             (lit "ann@x.com") eq_refl eq_refl).
  - exact (login_without_password [Demo.bob] {[ "email" := JStr (lit "ann@x.com") ]}
             (lit "ann@x.com") eq_refl eq_refl).
Defined.

Lemma register_default_age_witness :
  Sample.body (lit "Cy Young") "cy@x.com" "secret1" !! "name"
  = Some (JStr (lit "Cy Young"))
  ∧ Sample.body (lit "Cy Young") "cy@x.com" "secret1" !! "email"
    = Some (JStr (lit "cy@x.com"))
  ∧ Sample.body (lit "Cy Young") "cy@x.com" "secret1" !! "password"
    = Some (JStr (lit "secret1"))
  ∧ Sample.body (lit "Cy Young") "cy@x.com" "secret1" !! "age" = None
  ∧ first_by_email (lit "cy@x.com") Demo.users = None
  ∧ auth_utils.hash_password (lit "secret1") (Sample.world 300) = Ok Sample.digest
  ∧ (auth_routes.register
       (JDict (Sample.body (lit "Cy Young") "cy@x.com" "secret1"))
       (Sample.world 300) Demo.users).2
    = Demo.users ++ [User.setattr Demo.cy (kw_age (Some 0))]
  ∧ (UserService.create_user Demo.data (Sample.world 300) Demo.users).2
    = Demo.users ++ [Demo.cy].
Proof.
  do 6 (split; [reflexivity |]).
  pose proof (register_default_age
                (Sample.body (lit "Cy Young") "cy@x.com" "secret1")
                (Sample.world 300) Demo.users (lit "Cy Young") (lit "cy@x.com")
                (lit "secret1") Sample.digest
                eq_refl eq_refl eq_refl eq_refl eq_refl eq_refl) as Hrun.
  cbv zeta in Hrun. destruct Hrun as [Hr Hc].
  split; [exact (f_equal snd Hr) | exact (f_equal snd Hc)].
Defined.

Lemma delete_route_then_gone_witness :
  UserService.get_user_by_id 1 Demo.users = Some Sample.ann
  ∧ ∃ db',
      user_routes.delete_user 1 (Sample.world 200) Demo.users
      = (reply None None (lit "User deleted successfully") 200, db')
      ∧ length db' = length Demo.users
      ∧ user_routes.get_user 1 db' = not_found 1
      ∧ user_routes.delete_user 1 (Sample.world 300) db' = (not_found 1, db').
Proof.
  split; [reflexivity |].
  exact (delete_route_then_gone 1 (Sample.world 200) (Sample.world 300)
           Demo.users Sample.ann eq_refl).
Defined.

Lemma search_within_listing_witness :
  lit "ann" ≠ []
  ∧ UserService.search_users (lit "ann") Demo.users
    `sublist_of` UserService.get_all_users Demo.users
  ∧ Forall (λ u, User.is_active u = true)
      (UserService.search_users (lit "ann") Demo.users)
  ∧ user_routes.search_users (Some (lit "ann")) Demo.users
    = reply (Some (Many [UserSchema.dump Sample.ann])) (Some 1%nat)
        (lit "Search results for: ann") 200.
Proof.
  assert (lit "ann" ≠ []) as Hq by done.
  split; [exact Hq |].
  destruct (search_within_listing (lit "ann") Demo.users Hq)
    as (Hsub & Hactive & Hroute & _).
  split; [exact Hsub |]. split; [exact Hactive | exact Hroute].
Defined.

Lemma undeclared_key_rejected_witness :
  is_Some (({[ "id" := JInt 7 ]} : gmap string json) !! "id")
  ∧ (∃ errs,
        user_routes.create_user (JDict {[ "id" := JInt 7 ]}) (Sample.world 300)
          Demo.users
        = (validation_error errs, Demo.users)
        ∧ errs !! "id" = Some ["Unknown field."])
  ∧ (∃ errs,
        user_routes.update_user 1 (JDict {[ "id" := JInt 7 ]}) (Sample.world 300)
          Demo.users
        = (validation_error errs, Demo.users)
        ∧ errs !! "id" = Some ["Unknown field."]).
Proof.
  assert (is_Some (({[ "id" := JInt 7 ]} : gmap string json) !! "id")) as Hk
    by (by eexists).
  split; [exact Hk |].
  destruct (undeclared_key_rejected {[ "id" := JInt 7 ]} "id" 1 (Sample.world 300)
              Demo.users Hk) as [Hcreate Hupdate].
  split.
  - apply Hcreate. apply (bool_decide_eq_true_1 (_ ∉ _)). reflexivity.
  - apply Hupdate.
    + apply (bool_decide_eq_true_1 (_ ∉ _)). reflexivity.
    + by exists Sample.ann.
Defined.

Lemma create_schema_accepts_witness :
  (∀ k, is_Some (Sample.body (lit "Cy Young") "cy@x.com" "secret1" !! k) →
        k ∈ ["name"; "email"; "age"; "password"])
  ∧ ¬ violates_create_rules
        (JDict (Sample.body (lit "Cy Young") "cy@x.com" "secret1"))
  ∧ UserSchema.load (JDict (Sample.body (lit "Cy Young") "cy@x.com" "secret1"))
    = Ok Demo.data.
Proof.
  assert (∀ k, is_Some (Sample.body (lit "Cy Young") "cy@x.com" "secret1" !! k) →
               k ∈ ["name"; "email"; "age"; "password"]) as Hkeys.
  { intros k [v Hk]. unfold Sample.body in Hk.
    apply lookup_insert_Some in Hk as [[<- _] | [_ Hk]]; [set_solver |].
    apply lookup_insert_Some in Hk as [[<- _] | [_ Hk]]; [set_solver |].
    apply lookup_singleton_Some in Hk as [<- _]. set_solver. }
  split; [exact Hkeys |].
  destruct (create_schema_accepts _ Hkeys) as [Hiff _].
  split; [| reflexivity].
  apply Hiff. by exists Demo.data.
Defined.

Lemma sanitize_input_output_witness :
  39%N ∈ lit "<b>it's</b>"
  ∧ sanitize_input (lit "<b>it's</b>") = lit "&lt;b&gt;it&#x27;s&lt;/b&gt;"
  ∧ ∀ c, c ∈ sanitize_input (lit "<b>it's</b>") →
         c ≠ 60%N ∧ c ≠ 62%N ∧ c ≠ 34%N ∧ c ≠ 39%N.
Proof.
  split; [apply (bool_decide_eq_true_1 (_ ∈ _)); reflexivity |].
  split; [reflexivity |].
  exact (sanitize_input_output (lit "<b>it's</b>")).
Defined.

Lemma sanitize_input_plain_witness :
  Forall (λ c, c ∉ [38; 60; 62; 34; 39]%N) (lit "Ann Lee")
  ∧ (∀ c, head (lit "Ann Lee") = Some c → is_space c = false)
  ∧ (∀ c, last (lit "Ann Lee") = Some c → is_space c = false)
  ∧ sanitize_input (lit "Ann Lee") = lit "Ann Lee".
Proof.
  assert (Forall (λ c, c ∉ [38; 60; 62; 34; 39]%N) (lit "Ann Lee")) as Hplain.
  { apply (bool_decide_eq_true_1 (Forall _ _)). reflexivity. }
  assert (∀ c, head (lit "Ann Lee") = Some c → is_space c = false) as Hhead
    by (by intros c [= <-]).
  assert (∀ c, last (lit "Ann Lee") = Some c → is_space c = false) as Hlast
    by (by intros c [= <-]).
  split; [exact Hplain |]. split; [exact Hhead |]. split; [exact Hlast |].
  exact (sanitize_input_plain (lit "Ann Lee") Hplain Hhead Hlast).
Defined.

Lemma token_required_passes_witness :
  ({[ "Authorization" := lit "Bearer " ++ Demo.token ]} : gmap string str)
     !! "Authorization" = Some (lit "Bearer " ++ Demo.token)
  ∧ split 32 (lit "Bearer " ++ Demo.token) !! 1%nat = Some Demo.token
  ∧ Demo.token ≠ []
  ∧ jwt_decode Demo.token SECRET_KEY (utcnow (Sample.world 100))
    = Ok {[ "user_id" := JInt 1; "exp" := JInt 3600 ]}
  ∧ ({[ "user_id" := JInt 1; "exp" := JInt 3600 ]} : gmap string json) !! "user_id"
    = Some (JInt 1)
  ∧ ∀ f, auth_utils.token_required f
           {[ "Authorization" := lit "Bearer " ++ Demo.token ]} (Sample.world 100)
         = f (JInt 1).
Proof.
  assert (Demo.token ≠ []) as Hne by done.
  split; [reflexivity |]. split; [reflexivity |]. split; [exact Hne |].
  split; [reflexivity |]. split; [reflexivity |].
  intros f.
  exact (token_required_passes f
           {[ "Authorization" := lit "Bearer " ++ Demo.token ]} (Sample.world 100) (lit "Bearer " ++ Demo.token)
           Demo.token {[ "user_id" := JInt 1; "exp" := JInt 3600 ]} (JInt 1)
           eq_refl eq_refl Hne eq_refl eq_refl).
Defined.

Lemma token_required_scheme_ignored_witness :
  (32%N ∉ lit "Basic")
  ∧ ∀ f, auth_utils.token_required f
           {[ "Authorization" := lit "Basic " ++ Demo.token ]} (Sample.world 100)
         = f (JInt 1).
Proof.
  assert (32%N ∉ lit "Basic") as Hs
    by (apply (bool_decide_eq_true_1 (_ ∉ _)); reflexivity).
  split; [exact Hs |]. intros f.
  exact (token_required_scheme_ignored f ∅ (Sample.world 100) (lit "Basic")
           Demo.token Hs).
Defined.

Lemma generate_random_password_accepted_witness :
  (∀ i l, l ≠ [] → Demo.choice i l ∈ l)
  ∧ generate_random_password Demo.choice 12 = lit "ahovCJQX4@ah"
  ∧ load_field UserSchema.password
      (Some (JStr (generate_random_password Demo.choice 12)))
    = Value (Some (generate_random_password Demo.choice 12)).
Proof.
  split; [exact Demo_choice_elem |]. split; [reflexivity |].
  pose proof (generate_random_password_accepted Demo.choice 12 Demo_choice_elem)
    as Hrun.
  cbv zeta in Hrun. destruct Hrun as (_ & _ & Hload).
  apply Hload. lia.
Defined.

Lemma create_sample_users_idempotent_witness :
  (∀ (j : nat) password,
      password ∈ ["password123"; "password456"; "password789"] →
      ∃ hashed,
        auth_utils.hash_password (lit password) (Sample.world 300) = Ok hashed)
  ∧ ∃ db',
      create_sample_users (λ _, Sample.world 300) Demo.users = Ok db'
      ∧ length db' = 4%nat
      ∧ (∀ w', create_sample_users w' db' = Ok db').
Proof.
  assert (∀ (j : nat) password,
             password ∈ ["password123"; "password456"; "password789"] →
             ∃ hashed,
               auth_utils.hash_password (lit password) (Sample.world 300)
               = Ok hashed) as Hhash.
  { intros _ password Hp. rewrite !elem_of_cons, elem_of_nil in Hp.
    destruct Hp as [-> | [-> | [-> | []]]]; eexists; vm_compute; reflexivity. }
  split; [exact Hhash |].
  destruct (create_sample_users_idempotent (λ _, Sample.world 300) Demo.users Hhash)
    as (db' & Hrun & _ & _ & _ & _ & Hagain).
  exists db'. split; [exact Hrun |]. split; [| exact Hagain].
  vm_compute in Hrun. by injection Hrun as <-.
Defined.

End ExtraRun.
